(** * go-api-boilerplate: the cache-aside layer, verified

    A shallow embedding of the cache-aside core of the repository:

    - [internal/service/items/item_service.go] and
      [item_property_service.go]: the two entity services,
    - [internal/repository/file/cache_repository.go]: the disk-backed cache,
    - [internal/di]: the selector of the cache backend at startup.

    Go code that calls through an interface ([domain.CacheRepository],
    [domain.ItemRepository], the [os] package, ...) is embedded as a program
    over the calls of that interface: a tree whose nodes are the calls, in
    the order the code makes them, and whose branches are indexed by what a
    call returns. Running such a program against an implementation of the
    interface threads the implementation's state and records the trace of
    calls with their answers. *)

From Stdlib Require Import ZArith String Ascii List Lia.
From stdpp Require Import base option gmap strings list.

Local Open Scope Z_scope.
Local Open Scope string_scope.

(** ** Go values *)

(** The [error] values that occur in the code. The two sentinels are the
    package-level variables of [repository/file]; [ErrNotExist] stands for the
    [*fs.PathError] on which [os.IsNotExist] answers true; [ErrJSON] for what
    [json.Unmarshal] and [json.Marshal] return; [ErrOther] for every other
    error (a store error, a Redis error, another [os] error). *)
Inductive error : Type :=
| ErrCacheKeyNotFound
| ErrCacheExpired
| ErrNotExist (path : string)
| ErrJSON (msg : string)
| ErrOther (msg : string).

#[global] Instance error_eq_dec : EqDecision error.
Proof. solve_decision. Defined.

(** [err.Error()], as [%v] prints it. *)
Definition Error (e : error) : string :=
  match e with
  | ErrCacheKeyNotFound => "cache key not found"
  | ErrCacheExpired => "cache item expired"
  | ErrNotExist path => "open " +:+ path +:+ ": no such file or directory"
  | ErrJSON msg => msg
  | ErrOther msg => msg
  end.

(** [os.IsNotExist]. *)
Definition IsNotExist (e : error) : bool :=
  match e with ErrNotExist _ => true | _ => false end.

(** A Go result pair [(T, error)]: the value when the error is nil. *)
Inductive result (A : Type) : Type :=
| Ok (a : A)
| Err (e : error).
Arguments Ok {A} a.
Arguments Err {A} e.

(** The error of a result, [None] for nil. *)
Definition err_of {A} (r : result A) : option error :=
  match r with Ok _ => None | Err e => Some e end.

(** [time.Time] as nanoseconds since the epoch, [time.Duration] as
    nanoseconds. *)
Definition Time := Z.
Definition Duration := Z.
Definition Millisecond : Duration := 1000000.
Definition Second : Duration := 1000 * Millisecond.
Definition Minute : Duration := 60 * Second.

(** [encoding/json] on a Go type. The code only calls [json.Marshal] and
    [json.Unmarshal]; the encoding itself is the library's and is taken as an
    interface of the type: an encoder and a decoder that return their data
    ([inl]) or the message of their error ([inr]). The error of the library
    is never one of the sentinels of the cache: it is an [ErrJSON]. *)
Class JSON (A : Type) : Type := {
  json_encode : A -> string + string;
  json_decode : string -> A + string
}.

Definition Marshal {A} `{JSON A} (v : A) : result string :=
  match json_encode v with
  | inl data => Ok data
  | inr msg => Err (ErrJSON msg)
  end.

Definition Unmarshal {A} `{JSON A} (data : string) : result A :=
  match json_decode data with
  | inl v => Ok v
  | inr msg => Err (ErrJSON msg)
  end.

#[global] Arguments Marshal : simpl never.
#[global] Arguments Unmarshal : simpl never.

(** ** Programs over an interface *)

Section Prog.
Variable C : Type.
Variable R : C -> Type.

(** A program that returns an [A]: it is done, or it makes the call [c]
    and goes on with the answer. *)
Inductive prog (A : Type) : Type :=
| Ret (a : A)
| Vis (c : C) (k : R c -> prog A).

(** One entry of a trace: a call with its answer. *)
Definition event : Type := sigT R.
Definition trace : Type := list event.

Fixpoint bind {A B} (p : prog A) (f : A -> prog B) : prog B :=
  match p with
  | Ret _ a => f a
  | Vis _ c k => Vis _ c (fun x => bind (k x) f)
  end.

(** An implementation of the interface on a state [W]. *)
Definition handler (W : Type) : Type := forall c : C, W -> R c * W.

Fixpoint run {A W} (h : handler W) (p : prog A) (w : W) : A * W * trace :=
  match p with
  | Ret _ a => (a, w, [])
  | Vis _ c k =>
      let xw := h c w in
      let r := run h (k xw.1) xw.2 in
      (r.1.1, r.1.2, existT c xw.1 :: r.2)
  end.
End Prog.

Arguments prog {C} R A.
Arguments Ret {C R A} a.
Arguments Vis {C R A} c k.
Arguments bind {C R A B} p f.
Arguments event {C} R.
Arguments trace {C} R.
Arguments handler {C} R W.
Arguments run {C R A W} h p w.

(** The value, the final state and the trace of a run. *)
Definition value_of {A W T} (r : A * W * T) : A := r.1.1.
Definition state_of {A W T} (r : A * W * T) : W := r.1.2.
Definition trace_of {A W T} (r : A * W * T) : T := r.2.

(** A single call. *)
Definition call {C} {R : C -> Type} (c : C) : prog R (R c) := Vis c Ret.

#[global] Instance prog_ret {C} {R : C -> Type} : MRet (prog R) :=
  fun A a => Ret a.
#[global] Instance prog_bind {C} {R : C -> Type} : MBind (prog R) :=
  fun A B f p => bind p f.

(** [every_run p Q]: whatever the calls of [p] return, the trace [tr] and the
    value [a] of the run satisfy [Q tr a]. *)
Fixpoint every_run {C} {R : C -> Type} {A} (p : prog R A)
    (Q : trace R -> A -> Prop) : Prop :=
  match p with
  | Ret a => Q [] a
  | Vis c k => forall x : R c, every_run (k x) (fun tr a => Q (existT c x :: tr) a)
  end.

(** ** The domain: [internal/domain] *)

Module ItemProperty.
Record t : Type := Build {
  ID : string;
  ItemID : string;
  Name : string;
  Value : string
}.
End ItemProperty.

Module Item.
Record t : Type := Build {
  ID : string;
  Title : string;
  Description : string;
  CreatedAt : option Time;
  UpdatedAt : Time;
  ItemProperties : list ItemProperty.t
}.
End Item.

(** ** The entity services: [internal/service/items] *)

Module Service.

(** The calls a service makes: the methods of [domain.CacheRepository],
    of [domain.ItemRepository] and of [domain.ItemPropertyRepository] that
    the services use, and [log.Printf] with its formatted message. An
    entity is passed by value: the store is taken not to change the [ID]
    and [ItemID] of the entity it is handed. *)
Inductive svc_call : Type :=
| CacheGet (key : string)
| CacheSet (key value : string) (ttl : Duration)
| CacheDelete (key : string)
| ItemRepoGetAll
| ItemRepoGetByID (id : string)
| ItemRepoCreate (item : Item.t)
| ItemRepoUpdate (item : Item.t)
| ItemRepoDelete (id : string)
| PropRepoGetAllByItemID (itemID : string)
| PropRepoGetByID (itemID id : string)
| PropRepoCreate (itemProperty : ItemProperty.t)
| PropRepoUpdate (itemProperty : ItemProperty.t)
| PropRepoDelete (itemID id : string)
| LogPrintf (msg : string).

(** What each call returns; a Go [error] is an [option error]. *)
Definition svc_resp (c : svc_call) : Type :=
  match c with
  | CacheGet _ => result string
  | CacheSet _ _ _ => option error
  | CacheDelete _ => option error
  | ItemRepoGetAll => result (list Item.t)
  | ItemRepoGetByID _ => result Item.t
  | ItemRepoCreate _ => option error
  | ItemRepoUpdate _ => option error
  | ItemRepoDelete _ => option error
  | PropRepoGetAllByItemID _ => result (list ItemProperty.t)
  | PropRepoGetByID _ _ => result ItemProperty.t
  | PropRepoCreate _ => option error
  | PropRepoUpdate _ => option error
  | PropRepoDelete _ _ => option error
  | LogPrintf _ => unit
  end.

Abbreviation svc := (prog svc_resp).

(** Cache key prefixes and the default TTL of [item_service.go]. *)
Definition itemCacheKeyPrefix : string := "item:".
Definition itemsListCacheKey : string := "items:list".
Definition defaultCacheTTL : Duration := 5 * Minute.

(** The same of [item_property_service.go]; [itemPropertiesListCacheKeyFmt]
    is the format ["item_properties:list:%s"], applied to its argument. *)
Definition itemPropertyCacheKeyPrefix : string := "item_property:".
Definition itemPropertiesListCacheKeyFmt (itemID : string) : string :=
  "item_properties:list:" +:+ itemID.
Definition defaultPropertyCacheTTL : Duration := 5 * Minute.

(** The test every read makes on what the cache returned:
    [err == nil && cached != ""], then [json.Unmarshal] without error. *)
Definition cacheHit {A} `{JSON A} (cached : result string) : option A :=
  match cached with
  | Ok cached =>
      if decide (cached ≠ "") then
        match Unmarshal cached with
        | Ok v => Some v
        | Err _ => None
        end
      else None
  | Err _ => None
  end.

#[global] Arguments cacheHit : simpl never.

Section Services.
Context `{JSON Item.t, JSON (list Item.t)}.
Context `{JSON ItemProperty.t, JSON (list ItemProperty.t)}.

Definition GetAllItems : svc (result (list Item.t)) :=
  cached ← call (CacheGet itemsListCacheKey);
  match cacheHit cached with
  | Some items =>
      call (LogPrintf "Cache hit for items list");;
      mret (Ok items)
  | None =>
      call (LogPrintf "Cache miss for items list, fetching from database");;
      r ← call ItemRepoGetAll;
      match r with
      | Err err => mret (Err err)
      | Ok items =>
          match Marshal items with
          | Ok data =>
              err ← call (CacheSet itemsListCacheKey data defaultCacheTTL);
              match err with
              | Some err =>
                  call (LogPrintf ("Failed to cache items list: "
                                   +:+ Error err))
              | None => mret tt
              end
          | Err _ => mret tt
          end;;
          mret (Ok items)
      end
  end.

Definition GetItemByID (id : string) : svc (result Item.t) :=
  let cacheKey := itemCacheKeyPrefix +:+ id in
  cached ← call (CacheGet cacheKey);
  match cacheHit cached with
  | Some item =>
      call (LogPrintf ("Cache hit for item " +:+ id));;
      mret (Ok item)
  | None =>
      call (LogPrintf ("Cache miss for item " +:+ id
                       +:+ ", fetching from database"));;
      r ← call (ItemRepoGetByID id);
      match r with
      | Err err => mret (Err err)
      | Ok item =>
          match Marshal item with
          | Ok data =>
              err ← call (CacheSet cacheKey data defaultCacheTTL);
              match err with
              | Some err =>
                  call (LogPrintf ("Failed to cache item " +:+ id +:+ ": "
                                   +:+ Error err))
              | None => mret tt
              end
          | Err _ => mret tt
          end;;
          mret (Ok item)
      end
  end.

Definition CreateItem (item : Item.t) : svc (option error) :=
  err ← call (ItemRepoCreate item);
  match err with
  | Some err => mret (Some err)
  | None =>
      err ← call (CacheDelete itemsListCacheKey);
      match err with
      | Some err =>
          call (LogPrintf ("Failed to invalidate items list cache: "
                           +:+ Error err))
      | None => mret tt
      end;;
      mret None
  end.

Definition UpdateItem (item : Item.t) : svc (option error) :=
  err ← call (ItemRepoUpdate item);
  match err with
  | Some err => mret (Some err)
  | None =>
      let cacheKey := itemCacheKeyPrefix +:+ Item.ID item in
      err ← call (CacheDelete cacheKey);
      match err with
      | Some err =>
          call (LogPrintf ("Failed to invalidate item cache "
                           +:+ Item.ID item +:+ ": " +:+ Error err))
      | None => mret tt
      end;;
      err ← call (CacheDelete itemsListCacheKey);
      match err with
      | Some err =>
          call (LogPrintf ("Failed to invalidate items list cache: "
                           +:+ Error err))
      | None => mret tt
      end;;
      mret None
  end.

Definition DeleteItem (id : string) : svc (option error) :=
  err ← call (ItemRepoDelete id);
  match err with
  | Some err => mret (Some err)
  | None =>
      let cacheKey := itemCacheKeyPrefix +:+ id in
      err ← call (CacheDelete cacheKey);
      match err with
      | Some err =>
          call (LogPrintf ("Failed to invalidate item cache "
                           +:+ id +:+ ": " +:+ Error err))
      | None => mret tt
      end;;
      err ← call (CacheDelete itemsListCacheKey);
      match err with
      | Some err =>
          call (LogPrintf ("Failed to invalidate items list cache: "
                           +:+ Error err))
      | None => mret tt
      end;;
      mret None
  end.

Definition GetItemPropertiesByItemID (itemID : string)
    : svc (result (list ItemProperty.t)) :=
  let cacheKey := itemPropertiesListCacheKeyFmt itemID in
  cached ← call (CacheGet cacheKey);
  match cacheHit cached with
  | Some properties =>
      call (LogPrintf ("Cache hit for item properties list (item: "
                       +:+ itemID +:+ ")"));;
      mret (Ok properties)
  | None =>
      call (LogPrintf ("Cache miss for item properties list (item: "
                       +:+ itemID +:+ "), fetching from database"));;
      r ← call (PropRepoGetAllByItemID itemID);
      match r with
      | Err err => mret (Err err)
      | Ok properties =>
          match Marshal properties with
          | Ok data =>
              err ← call (CacheSet cacheKey data defaultPropertyCacheTTL);
              match err with
              | Some err =>
                  call (LogPrintf
                          ("Failed to cache item properties list (item: "
                           +:+ itemID +:+ "): " +:+ Error err))
              | None => mret tt
              end
          | Err _ => mret tt
          end;;
          mret (Ok properties)
      end
  end.

Definition GetItemPropertyByID (itemID id : string)
    : svc (result ItemProperty.t) :=
  let cacheKey := itemPropertyCacheKeyPrefix +:+ itemID +:+ ":" +:+ id in
  cached ← call (CacheGet cacheKey);
  match cacheHit cached with
  | Some property =>
      call (LogPrintf ("Cache hit for item property " +:+ id
                       +:+ " (item: " +:+ itemID +:+ ")"));;
      mret (Ok property)
  | None =>
      call (LogPrintf ("Cache miss for item property " +:+ id
                       +:+ " (item: " +:+ itemID
                       +:+ "), fetching from database"));;
      r ← call (PropRepoGetByID itemID id);
      match r with
      | Err err => mret (Err err)
      | Ok property =>
          match Marshal property with
          | Ok data =>
              err ← call (CacheSet cacheKey data defaultPropertyCacheTTL);
              match err with
              | Some err =>
                  call (LogPrintf
                          ("Failed to cache item property " +:+ id
                           +:+ " (item: " +:+ itemID +:+ "): "
                           +:+ Error err))
              | None => mret tt
              end
          | Err _ => mret tt
          end;;
          mret (Ok property)
      end
  end.

Definition CreateItemProperty (itemProperty : ItemProperty.t)
    : svc (option error) :=
  err ← call (PropRepoCreate itemProperty);
  match err with
  | Some err => mret (Some err)
  | None =>
      let listCacheKey :=
        itemPropertiesListCacheKeyFmt (ItemProperty.ItemID itemProperty) in
      err ← call (CacheDelete listCacheKey);
      match err with
      | Some err =>
          call (LogPrintf
                  ("Failed to invalidate item properties list cache (item: "
                   +:+ ItemProperty.ItemID itemProperty +:+ "): "
                   +:+ Error err))
      | None => mret tt
      end;;
      mret None
  end.

Definition UpdateItemProperty (itemProperty : ItemProperty.t)
    : svc (option error) :=
  err ← call (PropRepoUpdate itemProperty);
  match err with
  | Some err => mret (Some err)
  | None =>
      let cacheKey :=
        itemPropertyCacheKeyPrefix +:+ ItemProperty.ItemID itemProperty
        +:+ ":" +:+ ItemProperty.ID itemProperty in
      err ← call (CacheDelete cacheKey);
      match err with
      | Some err =>
          call (LogPrintf
                  ("Failed to invalidate item property cache "
                   +:+ ItemProperty.ID itemProperty +:+ " (item: "
                   +:+ ItemProperty.ItemID itemProperty +:+ "): "
                   +:+ Error err))
      | None => mret tt
      end;;
      let listCacheKey :=
        itemPropertiesListCacheKeyFmt (ItemProperty.ItemID itemProperty) in
      err ← call (CacheDelete listCacheKey);
      match err with
      | Some err =>
          call (LogPrintf
                  ("Failed to invalidate item properties list cache (item: "
                   +:+ ItemProperty.ItemID itemProperty +:+ "): "
                   +:+ Error err))
      | None => mret tt
      end;;
      mret None
  end.

Definition DeleteItemProperty (itemID id : string) : svc (option error) :=
  err ← call (PropRepoDelete itemID id);
  match err with
  | Some err => mret (Some err)
  | None =>
      let cacheKey :=
        itemPropertyCacheKeyPrefix +:+ itemID +:+ ":" +:+ id in
      err ← call (CacheDelete cacheKey);
      match err with
      | Some err =>
          call (LogPrintf
                  ("Failed to invalidate item property cache " +:+ id
                   +:+ " (item: " +:+ itemID +:+ "): " +:+ Error err))
      | None => mret tt
      end;;
      let listCacheKey := itemPropertiesListCacheKeyFmt itemID in
      err ← call (CacheDelete listCacheKey);
      match err with
      | Some err =>
          call (LogPrintf
                  ("Failed to invalidate item properties list cache (item: "
                   +:+ itemID +:+ "): " +:+ Error err))
      | None => mret tt
      end;;
      mret None
  end.
End Services.

(** *** Reading a trace *)

Definition is_store_call (c : svc_call) : bool :=
  match c with
  | ItemRepoGetAll | ItemRepoGetByID _ | ItemRepoCreate _
  | ItemRepoUpdate _ | ItemRepoDelete _
  | PropRepoGetAllByItemID _ | PropRepoGetByID _ _ | PropRepoCreate _
  | PropRepoUpdate _ | PropRepoDelete _ _ => true
  | _ => false
  end.

Definition is_cache_call (c : svc_call) : bool :=
  match c with
  | CacheGet _ | CacheSet _ _ _ | CacheDelete _ => true
  | _ => false
  end.

(** A cache mutation: [Set] or [Delete]. *)
Definition is_cache_write (c : svc_call) : bool :=
  match c with
  | CacheSet _ _ _ | CacheDelete _ => true
  | _ => false
  end.

Definition calls (tr : trace svc_resp) : list svc_call := map (@projT1 _ _) tr.

Definition store_calls (tr : trace svc_resp) : list svc_call :=
  List.filter is_store_call (calls tr).
Definition cache_calls (tr : trace svc_resp) : list svc_call :=
  List.filter is_cache_call (calls tr).
Definition cache_writes (tr : trace svc_resp) : list svc_call :=
  List.filter is_cache_write (calls tr).

(** The error a store call returned, if the event is a store call that
    failed. *)
Definition store_error (ev : event svc_resp) : option error :=
  match ev with
  | existT c x =>
      match c return svc_resp c -> option error with
      | ItemRepoGetAll => err_of
      | ItemRepoGetByID _ => err_of
      | ItemRepoCreate _ => fun e => e
      | ItemRepoUpdate _ => fun e => e
      | ItemRepoDelete _ => fun e => e
      | PropRepoGetAllByItemID _ => err_of
      | PropRepoGetByID _ _ => err_of
      | PropRepoCreate _ => fun e => e
      | PropRepoUpdate _ => fun e => e
      | PropRepoDelete _ _ => fun e => e
      | _ => fun _ => None
      end x
  end.

(** The error a cache call returned, if the event is a cache call that
    failed. *)
Definition cache_error (ev : event svc_resp) : option error :=
  match ev with
  | existT c x =>
      match c return svc_resp c -> option error with
      | CacheGet _ => err_of
      | CacheSet _ _ _ => fun e => e
      | CacheDelete _ => fun e => e
      | _ => fun _ => None
      end x
  end.

(** The store events of a trace, with what the store returned. *)
Definition store_events (tr : trace svc_resp) : trace svc_resp :=
  List.filter (fun ev => is_store_call (projT1 ev)) tr.

(** [Some (key, value)] on the event of a [Set] that returned nil. *)
Definition populated (ev : event svc_resp) : option (string * string) :=
  match ev with
  | existT c x =>
      match c return svc_resp c -> option (string * string) with
      | CacheSet key value _ => fun e =>
          match e with None => Some (key, value) | Some _ => None end
      | _ => fun _ => None
      end x
  end.

Definition store_errors (tr : trace svc_resp) : list error :=
  omap store_error tr.
Definition cache_errors (tr : trace svc_resp) : list error :=
  omap cache_error tr.

End Service.

(** ** [path/filepath] on Unix

    [keyToFilename] is made of [filepath.Base] and [filepath.Join] of the Go
    standard library. They are embedded after the library's algorithm on a
    system whose separator is ["/"] and that has no volume names: [Base]
    strips the trailing separators and keeps what follows the last one;
    [Clean] reads the elements between separators from left to right, drops
    the empty ones and ["."], and lets [".."] remove the element before it;
    [Join] cleans the non-empty elements joined by a separator. *)

Module filepath.

Definition IsPathSeparator (c : ascii) : bool := Ascii.eqb c "/".

(** The loop of [Base] that strips the trailing separators. *)
Fixpoint stripTrailing (path : string) : string :=
  match path with
  | EmptyString => EmptyString
  | String c rest =>
      match stripTrailing rest with
      | EmptyString =>
          if IsPathSeparator c then EmptyString else String c EmptyString
      | kept => String c kept
      end
  end.

Fixpoint hasSeparator (path : string) : bool :=
  match path with
  | EmptyString => false
  | String c rest => IsPathSeparator c || hasSeparator rest
  end.

(** The loop of [Base] that finds the last element: what follows the last
    separator, the whole path when there is none. *)
Fixpoint lastElement (path : string) : string :=
  match path with
  | EmptyString => EmptyString
  | String c rest =>
      if hasSeparator rest then lastElement rest
      else if IsPathSeparator c then rest
      else String c rest
  end.

Definition Base (path : string) : string :=
  if decide (path = "") then "."
  else
    let path := lastElement (stripTrailing path) in
    if decide (path = "") then "/" else path.

(** The elements of a path: the strings between its separators. *)
Fixpoint elements (path : string) : list string :=
  match path with
  | EmptyString => [EmptyString]
  | String c rest =>
      if IsPathSeparator c then EmptyString :: elements rest
      else
        match elements rest with
        | [] => [String c EmptyString]
        | e :: es => String c e :: es
        end
  end.

(** One step of the loop of [Clean], on the elements written so far, the
    last one first. *)
Definition cleanStep (rooted : bool) (out : list string) (elem : string)
    : list string :=
  if decide (elem = "") then out
  else if decide (elem = ".") then out
  else if decide (elem = "..") then
    match out with
    | top :: below =>
        if decide (top = "..") then ".." :: out else below
    | [] => if rooted then [] else [".."]
    end
  else elem :: out.

Definition isRooted (path : string) : bool :=
  match path with
  | String c _ => IsPathSeparator c
  | EmptyString => false
  end.

(** A cleaned path: whether it starts at the root, and its elements. *)
Definition cleaned (path : string) : bool * list string :=
  (isRooted path,
   rev (fold_left (cleanStep (isRooted path)) (elements path) [])).

Fixpoint joinElements (elems : list string) : string :=
  match elems with
  | [] => ""
  | [e] => e
  | e :: es => e +:+ "/" +:+ joinElements es
  end.

(** The string of a cleaned path; the empty relative path is ["."]. *)
Definition render (p : bool * list string) : string :=
  match p with
  | (true, elems) => "/" +:+ joinElements elems
  | (false, []) => "."
  | (false, elems) => joinElements elems
  end.

Definition Clean (path : string) : string := render (cleaned path).

(** [Join] of two elements. *)
Definition Join (a b : string) : string :=
  if decide (a <> "") then Clean (a +:+ "/" +:+ b)
  else if decide (b <> "") then Clean b
  else "".

End filepath.

(** ** The disk-backed cache: [internal/repository/file] *)

Module file.

(** [cacheItem]: a cached value with optional expiration. *)
Record cacheItem : Type := {
  Value : string;
  ExpiresAt : Time;
  HasExpiry : bool
}.

(** [fileCacheRepository]. Its mutex [mu] is not a field here: locking and
    unlocking it are calls, below. *)
Record fileCacheRepository : Type := {
  cacheDir : string
}.

(** What the repository calls: the methods of [r.mu], the functions of [os]
    it uses, [time.Now], and the [go] statement of [Get], whose goroutine
    locks [r.mu], removes [filename] and unlocks. *)
Inductive os_call : Type :=
| RLock
| RUnlock
| Lock
| Unlock
| ReadFile (filename : string)
| WriteFile (filename data : string) (perm : Z)
| Remove (filename : string)
| Stat (name : string)
| MkdirAll (path : string) (perm : Z)
| Now
| GoRemove (filename : string).

Definition os_resp (c : os_call) : Type :=
  match c with
  | RLock | RUnlock | Lock | Unlock => unit
  | ReadFile _ => result string
  | WriteFile _ _ _ => option error
  | Remove _ => option error
  | Stat _ => option error
  | MkdirAll _ _ => option error
  | Now => Time
  | GoRemove _ => unit
  end.

Abbreviation os := (prog os_resp).

(** The file modes [0755] and [0644]. *)
Definition mode_0755 : Z := 493.
Definition mode_0644 : Z := 420.

(** The zero [time.Time], January 1 of year 1, in nanoseconds since 1970. *)
Definition zeroTime : Time := -62135596800 * Second.

(** [t.After(u)]. *)
Definition After (t u : Time) : bool := (u <? t)%Z.

(** [NewCacheRepository] creates a new file-based cache repository. *)
Definition NewCacheRepository (cacheDir : string)
    : os (result fileCacheRepository) :=
  err ← call (MkdirAll cacheDir mode_0755);
  match err with
  | Some err => mret (Err err)
  | None => mret (Ok {| cacheDir := cacheDir |})
  end.

(** [keyToFilename] converts a cache key to a safe filename. *)
Definition keyToFilename (r : fileCacheRepository) (key : string) : string :=
  let safeKey := filepath.Base key in
  let safeKey :=
    if decide (safeKey = "." \/ safeKey = "/") then "default" else safeKey in
  filepath.Join (cacheDir r) (safeKey +:+ ".cache").

(** [r.mu.RLock(); defer r.mu.RUnlock()] and the same with [Lock]. *)
Definition withRLock {A} (body : os A) : os A :=
  call RLock;; a ← body; call RUnlock;; mret a.

Definition withLock {A} (body : os A) : os A :=
  call Lock;; a ← body; call Unlock;; mret a.

Section Repository.
Context `{JSON cacheItem}.

Definition Get (r : fileCacheRepository) (key : string) : os (result string) :=
  withRLock (
    let filename := keyToFilename r key in
    data ← call (ReadFile filename);
    match data with
    | Err err =>
        if IsNotExist err then mret (Err ErrCacheKeyNotFound)
        else mret (Err err)
    | Ok data =>
        match Unmarshal data with
        | Err err => mret (Err err)
        | Ok item =>
            if HasExpiry item then
              now ← call Now;
              if After now (ExpiresAt item) then
                call (GoRemove filename);;
                mret (Err ErrCacheExpired)
              else mret (Ok (Value item))
            else mret (Ok (Value item))
        end
    end).

Definition Set_ (r : fileCacheRepository) (key value : string)
    (ttl : Duration) : os (option error) :=
  withLock (
    item ← (if (0 <? ttl)%Z then
              now ← call Now;
              mret {| Value := value; ExpiresAt := now + ttl;
                      HasExpiry := true |}
            else
              mret {| Value := value; ExpiresAt := zeroTime;
                      HasExpiry := false |});
    match Marshal item with
    | Err err => mret (Some err)
    | Ok data =>
        let filename := keyToFilename r key in
        call (WriteFile filename data mode_0644)
    end).

Definition Delete (r : fileCacheRepository) (key : string)
    : os (option error) :=
  withLock (
    let filename := keyToFilename r key in
    err ← call (Remove filename);
    match err with
    | Some err => if IsNotExist err then mret None else mret (Some err)
    | None => mret None
    end).

Definition Exists (r : fileCacheRepository) (key : string)
    : os (result bool) :=
  withRLock (
    let filename := keyToFilename r key in
    data ← call (ReadFile filename);
    match data with
    | Err err =>
        if IsNotExist err then mret (Ok false) else mret (Err err)
    | Ok data =>
        match Unmarshal data with
        | Err _ => mret (Ok false)
        | Ok item =>
            if HasExpiry item then
              now ← call Now;
              if After now (ExpiresAt item) then mret (Ok false)
              else mret (Ok true)
            else mret (Ok true)
        end
    end).

Definition Ping (r : fileCacheRepository) : os (option error) :=
  call (Stat (cacheDir r)).

End Repository.

(** *** The file system

    The calls run against a table of paths, a clock and the goroutines
    that were started and have not run yet. The table knows of a path
    whether it is a file, with its content, or a directory; the directories
    above a path are not looked at. *)

Inductive node : Type :=
| File (data : string)
| Dir.

Record fs : Type := {
  files : gmap string node;
  clock : Time;
  goroutines : list string
}.

Definition with_files (m : gmap string node) (w : fs) : fs :=
  {| files := m; clock := clock w; goroutines := goroutines w |}.

(** The state at the time [t]. *)
Definition at_time (t : Time) (w : fs) : fs :=
  {| files := files w; clock := t; goroutines := goroutines w |}.

Definition os_handler : handler os_resp fs :=
  fun c =>
    match c as c0 return fs -> os_resp c0 * fs with
    | RLock | RUnlock | Lock | Unlock => fun w => (tt, w)
    | ReadFile filename => fun w =>
        match files w !! filename with
        | None => (Err (ErrNotExist filename), w)
        | Some Dir => (Err (ErrOther "is a directory"), w)
        | Some (File data) => (Ok data, w)
        end
    | WriteFile filename data _ => fun w =>
        match files w !! filename with
        | Some Dir => (Some (ErrOther "is a directory"), w)
        | _ => (None, with_files (<[filename := File data]> (files w)) w)
        end
    | Remove filename => fun w =>
        match files w !! filename with
        | None => (Some (ErrNotExist filename), w)
        | Some _ => (None, with_files (delete filename (files w)) w)
        end
    | Stat name => fun w =>
        match files w !! name with
        | None => (Some (ErrNotExist name), w)
        | Some _ => (None, w)
        end
    | MkdirAll path _ => fun w =>
        match files w !! path with
        | Some (File _) => (Some (ErrOther "not a directory"), w)
        | Some Dir => (None, w)
        | None => (None, with_files (<[path := Dir]> (files w)) w)
        end
    | Now => fun w => (clock w, w)
    | GoRemove filename => fun w =>
        (tt, {| files := files w; clock := clock w;
                goroutines := (goroutines w ++ [filename])%list |})
    end.

(** The first goroutine that waits runs: it removes its file, whatever
    that file holds by now, and drops the error. *)
Definition run_goroutine (w : fs) : fs :=
  match goroutines w with
  | [] => w
  | filename :: rest =>
      {| files := delete filename (files w); clock := clock w;
         goroutines := rest |}
  end.

End file.

(** ** The selector of the cache backend: [internal/di] *)

Module di.

(** [config.Config]. *)
Record Config : Type := {
  DBUser : string;
  DBPass : string;
  DBHost : string;
  DBPort : string;
  DBName : string;
  RedisHost : string;
  RedisPort : string;
  RedisPassword : string;
  CacheDir : string;
  LoggingLevel : Z
}.

(** [GetRedisAddr] returns the Redis address in host:port format. *)
Definition GetRedisAddr (c : Config) : string :=
  RedisHost c +:+ ":" +:+ RedisPort c.

(** The two implementations of [domain.CacheRepository]: the Redis one, on
    a client with its options, and the file one. *)
Inductive CacheRepository : Type :=
| RedisCache (addr password : string) (db : Z)
| FileCache (r : file.fileCacheRepository).

(** What the selector calls: the ping of the Redis client under a context
    with a timeout, [log.Printf], and through [fileRepo.NewCacheRepository]
    the calls of the file repository. *)
Inductive di_call : Type :=
| RedisPing (addr password : string) (db : Z) (timeout : Duration)
| Printf (msg : string)
| OS (c : file.os_call).

Definition di_resp (c : di_call) : Type :=
  match c with
  | RedisPing _ _ _ _ => option error
  | Printf _ => unit
  | OS c => file.os_resp c
  end.

(** A program of the file repository, as a part of the selector. *)
Fixpoint lift {A} (p : file.os A) : prog di_resp A :=
  match p with
  | Ret a => Ret a
  | Vis c k => Vis (OS c) (fun x => lift (k x))
  end.

(** [NewCacheRepository] creates a cache repository. It attempts to connect
    to Redis first, falling back to file-based cache if Redis is
    unavailable. *)
Definition NewCacheRepository (cfg : Config)
    : prog di_resp (result CacheRepository) :=
  err ← call (RedisPing (GetRedisAddr cfg) (RedisPassword cfg) 0 (2 * Second));
  match err with
  | Some err =>
      call (Printf ("Failed to connect to Redis at " +:+ GetRedisAddr cfg
                    +:+ ": " +:+ Error err
                    +:+ ". Falling back to file-based cache."));;
      fileCache ← lift (file.NewCacheRepository (CacheDir cfg));
      match fileCache with
      | Err err => mret (Err err)
      | Ok fileCache =>
          call (Printf ("Using file-based cache in directory: "
                        +:+ CacheDir cfg));;
          mret (Ok (FileCache fileCache))
      end
  | None =>
      call (Printf ("Connected to Redis at " +:+ GetRedisAddr cfg));;
      mret (Ok (RedisCache (GetRedisAddr cfg) (RedisPassword cfg) 0))
  end.

(** *** Reading a trace *)

(** The errors of the pings of a trace. *)
Definition ping_error (ev : event di_resp) : option error :=
  match ev with
  | existT c x =>
      match c return di_resp c -> option error with
      | RedisPing _ _ _ _ => fun e => e
      | _ => fun _ => None
      end x
  end.

(** The timeouts of the pings of a trace. *)
Definition ping_timeout (ev : event di_resp) : option Duration :=
  match ev with
  | existT (RedisPing _ _ _ timeout) _ => Some timeout
  | _ => None
  end.

(** The directories of the [os.MkdirAll] calls of a trace, each with the
    error the call returned. *)
Definition mkdir (ev : event di_resp) : option (string * option error) :=
  match ev with
  | existT c x =>
      match c return di_resp c -> option (string * option error) with
      | OS (file.MkdirAll path _) => fun e => Some (path, e)
      | _ => fun _ => None
      end x
  end.

(** *** Redis and the file system

    The selector runs against a Redis server that answers the ping or
    fails it, and the file system of the file repository. *)

Record host : Type := {
  redis_down : option error;
  disk : file.fs
}.

Definition di_handler : handler di_resp host :=
  fun c =>
    match c as c0 return host -> di_resp c0 * host with
    | RedisPing _ _ _ _ => fun w => (redis_down w, w)
    | Printf _ => fun w => (tt, w)
    | OS c => fun w =>
        let xw := file.os_handler c (disk w) in
        (xw.1, {| redis_down := redis_down w; disk := xw.2 |})
    end.

End di.

(** ** A store, a cache and an encoding to run the services on

    The theorems below hold for every store, every cache and every JSON
    encoding. To run the programs on examples, here are a store and a cache
    in memory, which can each be taken down, and a small encoding of the
    entities and of [cacheItem] (fields separated by [","], list elements
    ended by [";"], a number in binary digits). *)

Module Demo.

Fixpoint split_first (sep : ascii) (s : string) : option (string * string) :=
  match s with
  | EmptyString => None
  | String c rest =>
      if Ascii.eqb c sep then Some (EmptyString, rest)
      else
        match split_first sep rest with
        | Some (a, b) => Some (String c a, b)
        | None => None
        end
  end.

Fixpoint enc_pos (p : positive) : string :=
  match p with
  | xH => ";"
  | xO q => String "0" (enc_pos q)
  | xI q => String "1" (enc_pos q)
  end.

Fixpoint dec_pos (s : string) : option (positive * string) :=
  match s with
  | String ";" rest => Some (xH, rest)
  | String "0" rest =>
      match dec_pos rest with
      | Some (q, rest) => Some (xO q, rest)
      | None => None
      end
  | String "1" rest =>
      match dec_pos rest with
      | Some (q, rest) => Some (xI q, rest)
      | None => None
      end
  | _ => None
  end.

Definition enc_Z (z : Z) : string :=
  match z with
  | Z0 => "="
  | Zpos p => String "+" (enc_pos p)
  | Zneg p => String "-" (enc_pos p)
  end.

Definition dec_Z (s : string) : option (Z * string) :=
  match s with
  | String "=" rest => Some (Z0, rest)
  | String "+" rest =>
      match dec_pos rest with
      | Some (p, rest) => Some (Zpos p, rest)
      | None => None
      end
  | String "-" rest =>
      match dec_pos rest with
      | Some (p, rest) => Some (Zneg p, rest)
      | None => None
      end
  | _ => None
  end.

#[export] Instance json_cacheItem : JSON file.cacheItem := {|
  json_encode item :=
    inl (String (if file.HasExpiry item then "T" else "F")
           (enc_Z (file.ExpiresAt item) +:+ file.Value item));
  json_decode data :=
    match data with
    | String flag rest =>
        match dec_Z rest with
        | Some (expires, value) =>
            if Ascii.eqb flag "T" then
              inl {| file.Value := value; file.ExpiresAt := expires;
                     file.HasExpiry := true |}
            else if Ascii.eqb flag "F" then
              inl {| file.Value := value; file.ExpiresAt := expires;
                     file.HasExpiry := false |}
            else inr "invalid character looking for beginning of value"
        | None => inr "invalid character looking for beginning of value"
        end
    | EmptyString => inr "unexpected end of JSON input"
    end
|}.

Definition enc_item (item : Item.t) : string :=
  Item.ID item +:+ "," +:+ Item.Title item.

Definition dec_item (data : string) : Item.t + string :=
  match split_first "," data with
  | Some (id, title) => inl (Item.Build id title "" None 0 [])
  | None => inr "unexpected end of JSON input"
  end.

Definition enc_property (p : ItemProperty.t) : string :=
  ItemProperty.ID p +:+ "," +:+ ItemProperty.ItemID p +:+ ","
  +:+ ItemProperty.Name p +:+ "," +:+ ItemProperty.Value p.

Definition dec_property (data : string) : ItemProperty.t + string :=
  match split_first "," data with
  | Some (id, rest) =>
      match split_first "," rest with
      | Some (itemID, rest) =>
          match split_first "," rest with
          | Some (name, value) => inl (ItemProperty.Build id itemID name value)
          | None => inr "unexpected end of JSON input"
          end
      | None => inr "unexpected end of JSON input"
      end
  | None => inr "unexpected end of JSON input"
  end.

(** A list: its elements, each ended by [";"]. The fuel is the length of
    the data. *)
Fixpoint dec_list {A} (dec : string -> A + string) (fuel : nat)
    (data : string) : list A + string :=
  match fuel with
  | O => if decide (data = "") then inl [] else inr "unexpected end of JSON input"
  | S fuel =>
      if decide (data = "") then inl []
      else
        match split_first ";" data with
        | Some (elem, rest) =>
            match dec elem, dec_list dec fuel rest with
            | inl v, inl vs => inl (v :: vs)
            | inr msg, _ => inr msg
            | _, inr msg => inr msg
            end
        | None => inr "unexpected end of JSON input"
        end
  end.

Definition enc_list {A} (enc : A -> string) (l : list A) : string :=
  String.concat "" (map (fun v => enc v +:+ ";") l).

#[export] Instance json_Item : JSON Item.t := {|
  json_encode item := inl (enc_item item);
  json_decode := dec_item
|}.

#[export] Instance json_Items : JSON (list Item.t) := {|
  json_encode items := inl (enc_list enc_item items);
  json_decode data := dec_list dec_item (String.length data) data
|}.

#[export] Instance json_ItemProperty : JSON ItemProperty.t := {|
  json_encode p := inl (enc_property p);
  json_decode := dec_property
|}.

#[export] Instance json_ItemProperties : JSON (list ItemProperty.t) := {|
  json_encode ps := inl (enc_list enc_property ps);
  json_decode data := dec_list dec_property (String.length data) data
|}.

(** The store and the cache in memory. *)
Record world : Type := {
  cache : gmap string string;
  cache_down : option error;
  items : list Item.t;
  properties : list ItemProperty.t;
  store_down : option error;
  logs : list string
}.

Definition with_cache (m : gmap string string) (w : world) : world :=
  {| cache := m; cache_down := cache_down w; items := items w;
     properties := properties w; store_down := store_down w; logs := logs w |}.

Definition with_items (l : list Item.t) (w : world) : world :=
  {| cache := cache w; cache_down := cache_down w; items := l;
     properties := properties w; store_down := store_down w; logs := logs w |}.

Definition with_properties (l : list ItemProperty.t) (w : world) : world :=
  {| cache := cache w; cache_down := cache_down w; items := items w;
     properties := l; store_down := store_down w; logs := logs w |}.

Definition is_item (id : string) (item : Item.t) : bool :=
  bool_decide (Item.ID item = id).

Definition is_property (itemID id : string) (p : ItemProperty.t) : bool :=
  bool_decide (ItemProperty.ItemID p = itemID)
  && bool_decide (ItemProperty.ID p = id).

(** A store call: the error of the store when it is down. *)
Definition stored {A} (w : world) (ok : A * world) (fail : error -> A)
    : A * world :=
  match store_down w with
  | Some err => (fail err, w)
  | None => ok
  end.

Definition cached {A} (w : world) (ok : A * world) (fail : error -> A)
    : A * world :=
  match cache_down w with
  | Some err => (fail err, w)
  | None => ok
  end.

Definition handle : handler Service.svc_resp world :=
  fun c =>
    match c as c0 return world -> Service.svc_resp c0 * world with
    | Service.CacheGet key => fun w =>
        cached w
          (match cache w !! key with
           | Some value => Ok value
           | None => Err (ErrOther "redis: nil")
           end, w) Err
    | Service.CacheSet key value _ => fun w =>
        cached w (None, with_cache (<[key := value]> (cache w)) w) Some
    | Service.CacheDelete key => fun w =>
        cached w (None, with_cache (delete key (cache w)) w) Some
    | Service.ItemRepoGetAll => fun w =>
        stored w (Ok (items w), w) Err
    | Service.ItemRepoGetByID id => fun w =>
        stored w
          (match List.find (is_item id) (items w) with
           | Some item => Ok item
           | None => Err (ErrOther "record not found")
           end, w) Err
    | Service.ItemRepoCreate item => fun w =>
        stored w (None, with_items (items w ++ [item])%list w) Some
    | Service.ItemRepoUpdate item => fun w =>
        stored w
          (None,
           with_items
             (List.filter (fun i => negb (is_item (Item.ID item) i)) (items w)
              ++ [item])%list w) Some
    | Service.ItemRepoDelete id => fun w =>
        stored w
          (None,
           with_items
             (List.filter (fun i => negb (is_item id i)) (items w)) w) Some
    | Service.PropRepoGetAllByItemID itemID => fun w =>
        stored w
          (Ok (List.filter
                 (fun p => bool_decide (ItemProperty.ItemID p = itemID))
                 (properties w)), w) Err
    | Service.PropRepoGetByID itemID id => fun w =>
        stored w
          (match List.find (is_property itemID id) (properties w) with
           | Some p => Ok p
           | None => Err (ErrOther "record not found")
           end, w) Err
    | Service.PropRepoCreate p => fun w =>
        stored w (None, with_properties (properties w ++ [p])%list w) Some
    | Service.PropRepoUpdate p => fun w =>
        stored w
          (None,
           with_properties
             (List.filter
                (fun q => negb (is_property (ItemProperty.ItemID p)
                                  (ItemProperty.ID p) q)) (properties w)
              ++ [p])%list w) Some
    | Service.PropRepoDelete itemID id => fun w =>
        stored w
          (None,
           with_properties
             (List.filter (fun q => negb (is_property itemID id q))
                (properties w)) w) Some
    | Service.LogPrintf msg => fun w =>
        (tt, {| cache := cache w; cache_down := cache_down w;
                items := items w; properties := properties w;
                store_down := store_down w;
                logs := (logs w ++ [msg])%list |})
    end.

(** The scenario of the specification: an empty cache and a store that
    holds the item [I1], titled [Widget]. *)
Definition widget : Item.t := Item.Build "I1" "Widget" "" None 0 [].
Definition widget2 : Item.t := Item.Build "I1" "Widget2" "" None 0 [].
Definition colour : ItemProperty.t := ItemProperty.Build "P1" "I1" "colour" "red".

Definition start : world :=
  {| cache := ∅; cache_down := None; items := [widget];
     properties := [colour]; store_down := None; logs := [] |}.

(** The same with the store down, and with the cache down. *)
Definition store_is_down : world :=
  {| cache := ∅; cache_down := None; items := [widget];
     properties := [colour];
     store_down := Some (ErrOther "connection refused"); logs := [] |}.

Definition cache_is_down : world :=
  {| cache := ∅; cache_down := Some (ErrOther "connection refused");
     items := [widget]; properties := [colour]; store_down := None;
     logs := [] |}.

(** A disk with nothing on it, at time 0, and the repository on [".cache"]. *)
Definition empty_disk : file.fs :=
  {| file.files := ∅; file.clock := 0; file.goroutines := [] |}.

Definition repo : file.fileCacheRepository := {| file.cacheDir := ".cache" |}.

(** [config.LoadConfig] with no variable set. *)
Definition default_config : di.Config :=
  {| di.DBUser := "root"; di.DBPass := "root"; di.DBHost := "127.0.0.1";
     di.DBPort := "3306"; di.DBName := "test";
     di.RedisHost := "127.0.0.1"; di.RedisPort := "6379";
     di.RedisPassword := ""; di.CacheDir := ".cache"; di.LoggingLevel := 3 |}.

End Demo.

(** ** Reading a trace of the file repository *)

Module fileTrace.
Import file.

Definition os_calls (tr : trace os_resp) : list os_call :=
  map (@projT1 _ _) tr.

Definition is_lock_call (c : os_call) : bool :=
  match c with
  | RLock | RUnlock | Lock | Unlock => true
  | _ => false
  end.

(** A call that changes the file system. *)
Definition mutates (c : os_call) : bool :=
  match c with
  | WriteFile _ _ _ | Remove _ | MkdirAll _ _ => true
  | _ => false
  end.

(** The calls of a method that holds [r.mu] as it should: the read lock is
    taken first and released last, with no other call on the mutex and no
    change of the file system in between; or the same with the write lock,
    under which the file system may change. *)
Definition well_locked (calls : list os_call) : bool :=
  match calls with
  | RLock :: rest =>
      match rev rest with
      | RUnlock :: body =>
          forallb (fun c => negb (is_lock_call c) && negb (mutates c)) body
      | _ => false
      end
  | Lock :: rest =>
      match rev rest with
      | Unlock :: body => forallb (fun c => negb (is_lock_call c)) body
      | _ => false
      end
  | _ => false
  end.

(** The files a trace reads, writes and removes. *)
Definition touched (c : os_call) : option string :=
  match c with
  | ReadFile filename | WriteFile filename _ _ | Remove filename
  | GoRemove filename => Some filename
  | _ => None
  end.

(** The answer of a [Get] that found an expired record. *)
Definition is_expired {A} (got : result A) : bool :=
  match got with
  | Err ErrCacheExpired => true
  | _ => false
  end.

End fileTrace.

(** ** More readings of a trace of the services *)

Module ServiceTrace.
Import Service.

(** The key of a cache call. *)
Definition cache_key (c : svc_call) : option string :=
  match c with
  | CacheGet key | CacheSet key _ _ | CacheDelete key => Some key
  | _ => None
  end.

(** The messages of the [log.Printf] calls of a trace. *)
Definition log_message (c : svc_call) : option string :=
  match c with
  | LogPrintf msg => Some msg
  | _ => None
  end.

Definition logs (tr : trace svc_resp) : list string :=
  omap log_message (calls tr).

(** The error of a cache [Set] or [Delete] that failed. *)
Definition cache_write_error (ev : event svc_resp) : option error :=
  match ev with
  | existT c x =>
      match c return svc_resp c -> option error with
      | CacheSet _ _ _ => fun e => e
      | CacheDelete _ => fun e => e
      | _ => fun _ => None
      end x
  end.

Definition cache_write_errors (tr : trace svc_resp) : list error :=
  omap cache_write_error tr.

(** [Some (key, value, ttl)] on the event of a [Set] that returned nil. *)
Definition populated_for (ev : event svc_resp)
    : option (string * string * Duration) :=
  match ev with
  | existT c x =>
      match c return svc_resp c -> option (string * string * Duration) with
      | CacheSet key value ttl => fun e =>
          match e with None => Some (key, value, ttl) | Some _ => None end
      | _ => fun _ => None
      end x
  end.

(** A message that ends with the text of an error, as [%v] prints it. *)
Definition reports (msg : string) (err : error) : Prop :=
  exists text : string, msg = text +:+ Error err.

(** The services with the disk-backed cache as their
    [domain.CacheRepository]: the cache calls run the methods of the file
    repository [r] on the file system, the other calls go to [store]. *)
Definition on_disk `{JSON file.cacheItem} {W} (r : file.fileCacheRepository)
    (store : handler svc_resp W) : handler svc_resp (file.fs * W) :=
  fun c =>
    match c as c0
      return (W -> svc_resp c0 * W) -> file.fs * W -> svc_resp c0 * (file.fs * W)
    with
    | CacheGet key => fun _ dw =>
        let x := run file.os_handler (file.Get r key) dw.1 in
        (value_of x, (state_of x, dw.2))
    | CacheSet key value ttl => fun _ dw =>
        let x := run file.os_handler (file.Set_ r key value ttl) dw.1 in
        (value_of x, (state_of x, dw.2))
    | CacheDelete key => fun _ dw =>
        let x := run file.os_handler (file.Delete r key) dw.1 in
        (value_of x, (state_of x, dw.2))
    | _ => fun st dw => let xw := st dw.2 in (xw.1, (dw.1, xw.2))
    end (store c).

(** The state of the services on disk at the time [t]. *)
Definition on_disk_at {W} (t : Time) (dw : file.fs * W) : file.fs * W :=
  (file.at_time t dw.1, dw.2).

End ServiceTrace.

(** ** More readings of a trace of the selector *)

Module diTrace.
Import di.

(** The address, the password and the database of a ping. *)
Definition ping_target (c : di_call) : option (string * string * Z) :=
  match c with
  | RedisPing addr password db _ => Some (addr, password, db)
  | _ => None
  end.

(** The calls of the file repository in a trace of the selector. *)
Definition os_call_of (c : di_call) : option file.os_call :=
  match c with
  | OS c => Some c
  | _ => None
  end.

Definition printed (c : di_call) : option string :=
  match c with
  | Printf msg => Some msg
  | _ => None
  end.

Definition di_calls (tr : trace di_resp) : list di_call :=
  map (@projT1 _ _) tr.

End diTrace.

(** ** The configuration: [internal/config] *)

Module config.
Import di.

(** The environment of the process, after [godotenv.Load] has added the
    variables of the [.env] file: the variables that are set, with their
    values. [os.LookupEnv] is the lookup. *)
Abbreviation environ := (gmap string string).

(** [strconv.Atoi], of the Go standard library, on a machine whose [int]
    has 64 bits: an optional sign, then at least one decimal digit and
    nothing else; the number must fit in 64 bits. *)
Definition digit (c : ascii) : option Z :=
  let n := Z.of_nat (nat_of_ascii c) in
  if (48 <=? n)%Z && (n <=? 57)%Z then Some (n - 48) else None.

Fixpoint digits (acc : Z) (s : string) : option Z :=
  match s with
  | EmptyString => Some acc
  | String c rest =>
      match digit c with
      | Some d => digits (10 * acc + d) rest
      | None => None
      end
  end.

Definition unsigned (s : string) : option Z :=
  match s with
  | EmptyString => None
  | _ => digits 0 s
  end.

Definition Atoi (s : string) : result Z :=
  let parsed :=
    match s with
    | String "-" rest => option_map Z.opp (unsigned rest)
    | String "+" rest => unsigned rest
    | _ => unsigned s
    end in
  match parsed with
  | Some n =>
      if (- 2 ^ 63 <=? n)%Z && (n <=? 2 ^ 63 - 1)%Z then Ok n
      else Err (ErrOther "strconv.Atoi: value out of range")
  | None => Err (ErrOther "strconv.Atoi: invalid syntax")
  end.

Definition getEnv (env : environ) (key fallback : string) : string :=
  match env !! key with
  | Some value => value
  | None => fallback
  end.

Definition getEnvInt (env : environ) (key : string) (fallback : Z) : Z :=
  match env !! key with
  | Some value =>
      match Atoi value with
      | Ok intVal => intVal
      | Err _ => fallback
      end
  | None => fallback
  end.

Definition LoadConfig (env : environ) : Config :=
  {| DBUser := getEnv env "DB_USER" "root";
     DBPass := getEnv env "DB_PASS" "root";
     DBHost := getEnv env "DB_HOST" "127.0.0.1";
     DBPort := getEnv env "DB_PORT" "3306";
     DBName := getEnv env "DB_NAME" "test";
     RedisHost := getEnv env "REDIS_HOST" "127.0.0.1";
     RedisPort := getEnv env "REDIS_PORT" "6379";
     RedisPassword := getEnv env "REDIS_PASSWORD" "";
     CacheDir := getEnv env "CACHE_DIR" ".cache";
     LoggingLevel := getEnvInt env "LOGGING_LEVEL" 3 |}.

Definition GetMySQLDSN (c : Config) : string :=
  DBUser c +:+ ":" +:+ DBPass c +:+ "@tcp(" +:+ DBHost c +:+ ":" +:+ DBPort c
  +:+ ")/" +:+ DBName c +:+ "?charset=utf8mb4&parseTime=True&loc=Local".

End config.

(** ** The HTTP layer: what a handler calls

    A handler of [gin] is a program over the calls it makes: on the
    [gin.Context] (parameters, query, headers, the body of the request,
    the response), on [log], [jsonapi], [uuid] and [time], on the injected
    [domain.Validator] and on the injected services. An entity is passed by
    value, as in the services. *)

Module gin.

(** [domain.ValidationError]. *)
Record ValidationError : Type := {
  Field : string;
  Message : string
}.

(** The [gin.H] bodies that the handlers send: [{"error": msg}] and
    [{"errors": validationErrors}]. *)
Inductive H : Type :=
| H_error (msg : string)
| H_errors (errs : list ValidationError).

(** What [jsonapi.MarshalPayload] is given to write. *)
Inductive payload : Type :=
| Items (items : list Item.t)
| OneItem (item : Item.t)
| Properties (properties : list ItemProperty.t)
| OneProperty (property : ItemProperty.t).

Inductive gin_call : Type :=
| Param (key : string)
| Query (key : string)
| GetHeader (key : string)
| ReadAllBody
| SetBody (body : string)
| JSON (code : Z) (obj : H)
| Status (code : Z)
| Header (key value : string)
| Abort
| Next
| LogPrintf (format : string) (args : list string)
| UnmarshalItem
| UnmarshalProperty
| MarshalPayload (p : payload)
| UuidNew
| TimeNow
| ValidateItem (item : Item.t)
| ValidateProperty (property : ItemProperty.t)
| SvcGetAllItems (include : bool)
| SvcGetItemByID (include : bool) (id : string)
| SvcCreateItem (item : Item.t)
| SvcUpdateItem (item : Item.t)
| SvcDeleteItem (id : string)
| SvcGetItemPropertiesByItemID (itemID : string)
| SvcGetItemPropertyByID (itemID id : string)
| SvcCreateItemProperty (property : ItemProperty.t)
| SvcUpdateItemProperty (property : ItemProperty.t)
| SvcDeleteItemProperty (itemID id : string).

(** [ReadAllBody] is [io.ReadAll(c.Request.Body)], whose error the code
    drops, and [SetBody body] the assignment
    [c.Request.Body = io.NopCloser(bytes.NewBuffer(body))];
    [UnmarshalItem] and [UnmarshalProperty] are [jsonapi.UnmarshalPayload]
    of [c.Request.Body] into a new entity. *)
Definition gin_resp (c : gin_call) : Type :=
  match c with
  | Param _ | Query _ | GetHeader _ | ReadAllBody | UuidNew => string
  | SetBody _ | JSON _ _ | Status _ | Header _ _ | Abort | Next
  | LogPrintf _ _ => unit
  | UnmarshalItem => result Item.t
  | UnmarshalProperty => result ItemProperty.t
  | MarshalPayload _ => option error
  | TimeNow => Time
  | ValidateItem _ | ValidateProperty _ => list ValidationError
  | SvcGetAllItems _ => result (list Item.t)
  | SvcGetItemByID _ _ => result Item.t
  | SvcCreateItem _ | SvcUpdateItem _ | SvcDeleteItem _ => option error
  | SvcGetItemPropertiesByItemID _ => result (list ItemProperty.t)
  | SvcGetItemPropertyByID _ _ => result ItemProperty.t
  | SvcCreateItemProperty _ | SvcUpdateItemProperty _
  | SvcDeleteItemProperty _ _ => option error
  end.

Abbreviation handler_func := (prog gin_resp unit).
Abbreviation call := (@call gin_call gin_resp) (only parsing).

(** The status codes of [net/http] that the code uses, and
    [jsonapi.MediaType]. *)
Definition StatusOK : Z := 200.
Definition StatusCreated : Z := 201.
Definition StatusNoContent : Z := 204.
Definition StatusBadRequest : Z := 400.
Definition StatusUnauthorized : Z := 401.
Definition StatusNotFound : Z := 404.
Definition StatusInternalServerError : Z := 500.
Definition MediaType : string := "application/vnd.api+json".

End gin.

(** ** The logging service: [internal/service/logging] *)

Module logging.
Import gin.

(** Log levels from least to most verbose. *)
Definition LevelError : Z := 1.
Definition LevelWarn : Z := 2.
Definition LevelInfo : Z := 3.
Definition LevelDebug : Z := 4.

(** [LoggingService] is the concrete implementation of [Logger]. *)
Record LoggingService : Type := {
  level : Z
}.

(** [NewLoggingService] creates a new logging service with the
    configured log level. *)
Definition NewLoggingService (cfg : di.Config) : LoggingService :=
  {| level := di.LoggingLevel cfg |}.

Definition Error (l : LoggingService) (format : string) (args : list string)
    : handler_func :=
  if (LevelError <=? level l)%Z
  then call (LogPrintf ("[ERROR] " +:+ format) args) else mret tt.

Definition Warn (l : LoggingService) (format : string) (args : list string)
    : handler_func :=
  if (LevelWarn <=? level l)%Z
  then call (LogPrintf ("[WARN] " +:+ format) args) else mret tt.

Definition Info (l : LoggingService) (format : string) (args : list string)
    : handler_func :=
  if (LevelInfo <=? level l)%Z
  then call (LogPrintf ("[INFO] " +:+ format) args) else mret tt.

Definition Debug (l : LoggingService) (format : string) (args : list string)
    : handler_func :=
  if (LevelDebug <=? level l)%Z
  then call (LogPrintf ("[DEBUG] " +:+ format) args) else mret tt.

(** [LogRequest] logs the request body at debug level and restores the
    body for further reading. *)
Definition LogRequest (l : LoggingService) : handler_func :=
  if (LevelDebug <=? level l)%Z then
    body ← call ReadAllBody;
    call (LogPrintf "[DEBUG] Request Body: %s" [body]);;
    call (SetBody body)
  else mret tt.

(** [Logger], the interface the handlers are given. *)
Module Logger.
Record t : Type := Build {
  Error : string -> list string -> handler_func;
  Warn : string -> list string -> handler_func;
  Info : string -> list string -> handler_func;
  Debug : string -> list string -> handler_func;
  LogRequest : handler_func
}.
End Logger.

(** A [LoggingService] as a [Logger]. *)
Definition asLogger (l : LoggingService) : Logger.t :=
  Logger.Build (Error l) (Warn l) (Info l) (Debug l) (LogRequest l).

End logging.

(** ** The authentication middleware:
    [internal/delivery/http/middleware] *)

Module middleware.
Import gin.

Definition StaticToken : string := "secret-token".

Definition AuthMiddleware : handler_func :=
  token ← call (GetHeader "Authorization");
  if bool_decide (token <> "Bearer " +:+ StaticToken)
  return handler_func then
    call (JSON StatusUnauthorized (H_error "Unauthorized"));;
    call Abort
  else call Next.

End middleware.

(** ** The item handlers: [internal/delivery/http/v1/items]

    [uuid.Parse] belongs to a library: the handlers are given it as
    [uuid_Parse]. A handler hands its entity to the service by value: the
    service is taken to leave it as it is. A Go [return] in the middle of a
    handler is the end of a branch. *)

Module items.

(** [isValidUUID] checks if a string is a valid UUID. *)
Definition isValidUUID (uuid_Parse : string -> result string) (u : string)
    : bool :=
  match uuid_Parse u with
  | Ok _ => true
  | Err _ => false
  end.

(** The assignments [item.ID = ...], [item.CreatedAt = &now],
    [property.ID = ...] and [property.ItemID = ...]. *)
Definition setID (id : string) (item : Item.t) : Item.t :=
  Item.Build id (Item.Title item) (Item.Description item)
    (Item.CreatedAt item) (Item.UpdatedAt item) (Item.ItemProperties item).

Definition setCreatedAt (now : Time) (item : Item.t) : Item.t :=
  Item.Build (Item.ID item) (Item.Title item) (Item.Description item)
    (Some now) (Item.UpdatedAt item) (Item.ItemProperties item).

Definition setPropertyID (id : string) (property : ItemProperty.t)
    : ItemProperty.t :=
  ItemProperty.Build id (ItemProperty.ItemID property)
    (ItemProperty.Name property) (ItemProperty.Value property).

Definition setItemID (itemID : string) (property : ItemProperty.t)
    : ItemProperty.t :=
  ItemProperty.Build (ItemProperty.ID property) itemID
    (ItemProperty.Name property) (ItemProperty.Value property).

End items.

Module ItemHandler.
Import gin items.

(** [Service] and [Validator] are reached through the calls. *)
Record t : Type := Build {
  Logger : logging.Logger.t
}.

Section Methods.
Variable uuid_Parse : string -> result string.
Variable h : t.

Definition GetAll : handler_func :=
  include ← call (Query "include");
  r ← call (SvcGetAllItems (bool_decide (include = "item_properties")));
  match r with
  | Err err => call (JSON StatusInternalServerError (H_error (Error err)))
  | Ok items =>
      call (Header "Content-Type" MediaType);;
      err ← call (MarshalPayload (Items items));
      match err with
      | Some err =>
          call (JSON StatusInternalServerError (H_error (Error err)))
      | None => mret tt
      end
  end.

Definition GetByID : handler_func :=
  id ← call (Param "id");
  if negb (isValidUUID uuid_Parse id) return handler_func then
    call (JSON StatusBadRequest (H_error "Invalid UUID format"))
  else
    include ← call (Query "include");
    r ← call (SvcGetItemByID (bool_decide (include = "item_properties")) id);
    match r with
    | Err _ => call (JSON StatusNotFound (H_error "Item not found"))
    | Ok item =>
        call (Header "Content-Type" MediaType);;
        err ← call (MarshalPayload (OneItem item));
        match err with
        | Some err =>
            call (JSON StatusInternalServerError (H_error (Error err)))
        | None => mret tt
        end
    end.

Definition Create : handler_func :=
  logging.Logger.LogRequest (Logger h);;
  r ← call UnmarshalItem;
  match r with
  | Err err => call (JSON StatusBadRequest (H_error (Error err)))
  | Ok item =>
      id ← call UuidNew;
      let item := setID id item in
      now ← call TimeNow;
      let item := setCreatedAt now item in
      validationErrors ← call (ValidateItem item);
      if (0 <? length validationErrors)%nat return handler_func then
        call (JSON StatusBadRequest (H_errors validationErrors))
      else
        err ← call (SvcCreateItem item);
        match err with
        | Some err =>
            call (JSON StatusInternalServerError (H_error (Error err)))
        | None =>
            call (Status StatusCreated);;
            call (Header "Content-Type" MediaType);;
            err ← call (MarshalPayload (OneItem item));
            match err with
            | Some err =>
                call (JSON StatusInternalServerError (H_error (Error err)))
            | None => mret tt
            end
        end
  end.

Definition Update : handler_func :=
  id ← call (Param "id");
  if negb (isValidUUID uuid_Parse id) return handler_func then
    call (JSON StatusBadRequest (H_error "Invalid UUID format"))
  else
    logging.Logger.LogRequest (Logger h);;
    r ← call UnmarshalItem;
    match r with
    | Err err => call (JSON StatusBadRequest (H_error (Error err)))
    | Ok item =>
        let item := setID id item in
        validationErrors ← call (ValidateItem item);
        if (0 <? length validationErrors)%nat return handler_func then
          call (JSON StatusBadRequest (H_errors validationErrors))
        else
          err ← call (SvcUpdateItem item);
          match err with
          | Some err =>
              call (JSON StatusInternalServerError (H_error (Error err)))
          | None =>
              call (Header "Content-Type" MediaType);;
              err ← call (MarshalPayload (OneItem item));
              match err with
              | Some err =>
                  call (JSON StatusInternalServerError
                          (H_error (Error err)))
              | None => mret tt
              end
          end
    end.

(** PATCH is handled as Update. *)
Definition Patch : handler_func := Update.

Definition Delete : handler_func :=
  id ← call (Param "id");
  if negb (isValidUUID uuid_Parse id) return handler_func then
    call (JSON StatusBadRequest (H_error "Invalid UUID format"))
  else
    err ← call (SvcDeleteItem id);
    match err with
    | Some err =>
        call (JSON StatusInternalServerError (H_error (Error err)))
    | None => call (Status StatusNoContent)
    end.

End Methods.
End ItemHandler.

Module ItemPropertyHandler.
Import gin items.

Section Methods.
Variable uuid_Parse : string -> result string.

Definition GetAll : handler_func :=
  itemID ← call (Param "id");
  if negb (isValidUUID uuid_Parse itemID) return handler_func then
    call (JSON StatusBadRequest (H_error "Invalid UUID format for item ID"))
  else
    r ← call (SvcGetItemPropertiesByItemID itemID);
    match r with
    | Err err => call (JSON StatusInternalServerError (H_error (Error err)))
    | Ok properties =>
        call (Header "Content-Type" MediaType);;
        err ← call (MarshalPayload (Properties properties));
        match err with
        | Some err =>
            call (JSON StatusInternalServerError (H_error (Error err)))
        | None => mret tt
        end
    end.

Definition GetByID : handler_func :=
  itemID ← call (Param "id");
  id ← call (Param "property_id");
  if negb (isValidUUID uuid_Parse itemID) return handler_func then
    call (JSON StatusBadRequest (H_error "Invalid UUID format for item ID"))
  else if negb (isValidUUID uuid_Parse id) return handler_func then
    call (JSON StatusBadRequest
            (H_error "Invalid UUID format for property ID"))
  else
    r ← call (SvcGetItemPropertyByID itemID id);
    match r with
    | Err _ => call (JSON StatusNotFound (H_error "Item property not found"))
    | Ok property =>
        call (Header "Content-Type" MediaType);;
        err ← call (MarshalPayload (OneProperty property));
        match err with
        | Some err =>
            call (JSON StatusInternalServerError (H_error (Error err)))
        | None => mret tt
        end
    end.

Definition Create : handler_func :=
  itemID ← call (Param "id");
  if negb (isValidUUID uuid_Parse itemID) return handler_func then
    call (JSON StatusBadRequest (H_error "Invalid UUID format for item ID"))
  else
    body ← call ReadAllBody;
    call (LogPrintf "Request Body: %s" [body]);;
    call (SetBody body);;
    r ← call UnmarshalProperty;
    match r with
    | Err err => call (JSON StatusBadRequest (H_error (Error err)))
    | Ok property =>
        id ← call UuidNew;
        let property := setPropertyID id property in
        let property := setItemID itemID property in
        validationErrors ← call (ValidateProperty property);
        if (0 <? length validationErrors)%nat return handler_func then
          call (JSON StatusBadRequest (H_errors validationErrors))
        else
          err ← call (SvcCreateItemProperty property);
          match err with
          | Some err =>
              call (JSON StatusInternalServerError (H_error (Error err)))
          | None =>
              call (Status StatusCreated);;
              call (Header "Content-Type" MediaType);;
              err ← call (MarshalPayload (OneProperty property));
              match err with
              | Some err =>
                  call (JSON StatusInternalServerError
                          (H_error (Error err)))
              | None => mret tt
              end
          end
    end.

Definition Update : handler_func :=
  itemID ← call (Param "id");
  id ← call (Param "property_id");
  if negb (isValidUUID uuid_Parse itemID) return handler_func then
    call (JSON StatusBadRequest (H_error "Invalid UUID format for item ID"))
  else if negb (isValidUUID uuid_Parse id) return handler_func then
    call (JSON StatusBadRequest
            (H_error "Invalid UUID format for property ID"))
  else
    body ← call ReadAllBody;
    call (LogPrintf "Request Body: %s" [body]);;
    call (SetBody body);;
    r ← call UnmarshalProperty;
    match r with
    | Err err => call (JSON StatusBadRequest (H_error (Error err)))
    | Ok property =>
        let property := setPropertyID id property in
        let property := setItemID itemID property in
        validationErrors ← call (ValidateProperty property);
        if (0 <? length validationErrors)%nat return handler_func then
          call (JSON StatusBadRequest (H_errors validationErrors))
        else
          err ← call (SvcUpdateItemProperty property);
          match err with
          | Some err =>
              call (JSON StatusInternalServerError (H_error (Error err)))
          | None =>
              call (Header "Content-Type" MediaType);;
              err ← call (MarshalPayload (OneProperty property));
              match err with
              | Some err =>
                  call (JSON StatusInternalServerError
                          (H_error (Error err)))
              | None => mret tt
              end
          end
    end.

Definition Patch : handler_func := Update.

Definition Delete : handler_func :=
  itemID ← call (Param "id");
  id ← call (Param "property_id");
  if negb (isValidUUID uuid_Parse itemID) return handler_func then
    call (JSON StatusBadRequest (H_error "Invalid UUID format for item ID"))
  else if negb (isValidUUID uuid_Parse id) return handler_func then
    call (JSON StatusBadRequest
            (H_error "Invalid UUID format for property ID"))
  else
    err ← call (SvcDeleteItemProperty itemID id);
    match err with
    | Some err =>
        call (JSON StatusInternalServerError (H_error (Error err)))
    | None => call (Status StatusNoContent)
    end.

End Methods.
End ItemPropertyHandler.

(** ** The routes: [internal/delivery/http/router] and
    [internal/delivery/http/v1]

    The functions that register the routes work on [*gin.RouterGroup]
    values of one [*gin.Engine]. A group is an object of the engine's heap
    that holds a base path and the handlers every route registered {e on
    that group} starts with: [Group] allocates a new group with a copy of
    the receiver's handlers, [Use] appends to the handlers of its receiver
    and of no other group, and [GET], [POST], ... add to the engine a
    route whose chain is the receiver's handlers followed by the route's
    own. A handler function is named, so that chains can be compared. *)

Module router.

Inductive HandlerFunc : Type :=
| GinLogger | GinRecovery | SwaggerHandler | AuthMiddleware
| ItemGetAll | ItemGetByID | ItemCreate | ItemUpdate | ItemPatch
| ItemDelete
| PropertyGetAll | PropertyGetByID | PropertyCreate | PropertyUpdate
| PropertyPatch | PropertyDelete.

#[global] Instance HandlerFunc_eq_dec : EqDecision HandlerFunc.
Proof. solve_decision. Defined.

(** The program of each handler of this repository. *)
Definition handler_of (uuid_Parse : string -> result string)
    (h : ItemHandler.t) (f : HandlerFunc) : option gin.handler_func :=
  match f with
  | GinLogger | GinRecovery | SwaggerHandler => None
  | AuthMiddleware => Some middleware.AuthMiddleware
  | ItemGetAll => Some ItemHandler.GetAll
  | ItemGetByID => Some (ItemHandler.GetByID uuid_Parse)
  | ItemCreate => Some (ItemHandler.Create h)
  | ItemUpdate => Some (ItemHandler.Update uuid_Parse h)
  | ItemPatch => Some (ItemHandler.Patch uuid_Parse h)
  | ItemDelete => Some (ItemHandler.Delete uuid_Parse)
  | PropertyGetAll => Some (ItemPropertyHandler.GetAll uuid_Parse)
  | PropertyGetByID => Some (ItemPropertyHandler.GetByID uuid_Parse)
  | PropertyCreate => Some (ItemPropertyHandler.Create uuid_Parse)
  | PropertyUpdate => Some (ItemPropertyHandler.Update uuid_Parse)
  | PropertyPatch => Some (ItemPropertyHandler.Patch uuid_Parse)
  | PropertyDelete => Some (ItemPropertyHandler.Delete uuid_Parse)
  end.

Record RouterGroup : Type := {
  Handlers : list HandlerFunc;
  basePath : string
}.

Record route : Type := {
  method : string;
  path : string;
  chain : list HandlerFunc
}.

(** The engine: its groups, a [*RouterGroup] being an index of [groups]
    (the engine's own group is at 0), and the routes added so far. *)
Record Engine : Type := {
  groups : list RouterGroup;
  routes : list route
}.

Definition deref (e : Engine) (g : nat) : RouterGroup :=
  nth g (groups e) {| Handlers := []; basePath := "/" |}.

Fixpoint lastChar (s : string) : option ascii :=
  match s with
  | EmptyString => None
  | String c EmptyString => Some c
  | String _ rest => lastChar rest
  end.

Definition joinPaths (absolutePath relativePath : string) : string :=
  if decide (relativePath = "") then absolutePath
  else
    let finalPath := filepath.Join absolutePath relativePath in
    if bool_decide (lastChar relativePath = Some "/"%char)
       && negb (bool_decide (lastChar finalPath = Some "/"%char))
    then finalPath +:+ "/"
    else finalPath.

Definition Group (g : nat) (relativePath : string) (e : Engine)
    : nat * Engine :=
  let group := deref e g in
  (length (groups e),
   {| groups := (groups e ++
                 [{| Handlers := Handlers group;
                     basePath := joinPaths (basePath group) relativePath |}]
                )%list;
      routes := routes e |}).

Definition Use (g : nat) (middleware : list HandlerFunc) (e : Engine)
    : Engine :=
  let group := deref e g in
  {| groups := <[g := {| Handlers := (Handlers group ++ middleware)%list;
                         basePath := basePath group |}]> (groups e);
     routes := routes e |}.

Definition handle (httpMethod : string) (g : nat) (relativePath : string)
    (handler : HandlerFunc) (e : Engine) : Engine :=
  let group := deref e g in
  {| groups := groups e;
     routes := (routes e ++
                [{| method := httpMethod;
                    path := joinPaths (basePath group) relativePath;
                    chain := (Handlers group ++ [handler])%list |}])%list |}.

Definition GET := handle "GET".
Definition POST := handle "POST".
Definition PUT := handle "PUT".
Definition PATCH := handle "PATCH".
Definition DELETE := handle "DELETE".

(** [gin.Default()]: an engine whose own group has [Logger] and
    [Recovery]. *)
Definition Default : Engine :=
  Use 0 [GinLogger; GinRecovery]
    {| groups := [{| Handlers := []; basePath := "/" |}]; routes := [] |}.

(** [items_properties.RegisterRoutes]. *)
Definition RegisterPropertyRoutes (rg : nat) (e : Engine) : Engine :=
  let '(properties, e) := Group rg "/:id/item_properties" e in
  let e := GET properties "" PropertyGetAll e in
  let e := GET properties "/:property_id" PropertyGetByID e in
  let '(authorized, e) := Group properties "/" e in
  let e := Use authorized [AuthMiddleware] e in
  let e := POST properties "" PropertyCreate e in
  let e := PUT properties "/:property_id" PropertyUpdate e in
  let e := PATCH properties "/:property_id" PropertyPatch e in
  DELETE properties "/:property_id" PropertyDelete e.

(** [items.RegisterRoutes]. *)
Definition RegisterItemRoutes (rg : nat) (e : Engine) : Engine :=
  let '(itemGroup, e) := Group rg "/items" e in
  let e := GET itemGroup "" ItemGetAll e in
  let e := GET itemGroup "/:id" ItemGetByID e in
  let e := POST itemGroup "" ItemCreate e in
  let e := RegisterPropertyRoutes itemGroup e in
  let '(authorized, e) := Group itemGroup "" e in
  let e := Use authorized [AuthMiddleware] e in
  let e := PUT authorized "/:id" ItemUpdate e in
  let e := PATCH authorized "/:id" ItemPatch e in
  DELETE authorized "/:id" ItemDelete e.

(** [v1.RegisterRoutes]. *)
Definition RegisterRoutes (rg : nat) (e : Engine) : Engine :=
  let '(v1, e) := Group rg "/v1" e in
  RegisterItemRoutes v1 e.

(** [NewRouter]; [trusted] is what [r.SetTrustedProxies(nil)] returns. *)
Definition NewRouter (trusted : option error) : option Engine :=
  let r := Default in
  match trusted with
  | Some _ => None
  | None =>
      let r := GET 0 "/swagger/*any" SwaggerHandler r in
      let '(api, r) := Group 0 "/api" r in
      Some (RegisterRoutes api r)
  end.

End router.

(** ** What a trace of a handler shows *)

Module ginTrace.
Import gin.

Definition gin_calls (tr : trace gin_resp) : list gin_call :=
  map (@projT1 _ _) tr.

Definition is_service_call (c : gin_call) : bool :=
  match c with
  | SvcGetAllItems _ | SvcGetItemByID _ _ | SvcCreateItem _
  | SvcUpdateItem _ | SvcDeleteItem _ | SvcGetItemPropertiesByItemID _
  | SvcGetItemPropertyByID _ _ | SvcCreateItemProperty _
  | SvcUpdateItemProperty _ | SvcDeleteItemProperty _ _ => true
  | _ => false
  end.

Definition service_calls (tr : trace gin_resp) : list gin_call :=
  List.filter is_service_call (gin_calls tr).

(** The ids a service call carries: those of its arguments and the [ID]
    and [ItemID] of its entity. *)
Definition service_ids (c : gin_call) : list string :=
  match c with
  | SvcGetItemByID _ id | SvcDeleteItem id => [id]
  | SvcCreateItem item | SvcUpdateItem item => [Item.ID item]
  | SvcGetItemPropertiesByItemID itemID => [itemID]
  | SvcGetItemPropertyByID itemID id | SvcDeleteItemProperty itemID id =>
      [itemID; id]
  | SvcCreateItemProperty property | SvcUpdateItemProperty property =>
      [ItemProperty.ItemID property; ItemProperty.ID property]
  | _ => []
  end.

(** The entity a service call is handed. *)
Definition submitted (c : gin_call) : option (Item.t + ItemProperty.t) :=
  match c with
  | SvcCreateItem item | SvcUpdateItem item => Some (inl item)
  | SvcCreateItemProperty property | SvcUpdateItemProperty property =>
      Some (inr property)
  | _ => None
  end.

(** The entity of a call of the validator that found no error. *)
Definition accepted (ev : event gin_resp) : option (Item.t + ItemProperty.t) :=
  match ev with
  | existT c x =>
      match c return gin_resp c -> option (Item.t + ItemProperty.t) with
      | ValidateItem item =>
          fun errs => if errs is [] then Some (inl item) else None
      | ValidateProperty property =>
          fun errs => if errs is [] then Some (inr property) else None
      | _ => fun _ => None
      end x
  end.

(** The path parameters the handler read, with their values, and the ids
    [uuid.New] gave it. *)
Definition param_of (ev : event gin_resp) : option (string * string) :=
  match ev with
  | existT c x =>
      match c return gin_resp c -> option (string * string) with
      | Param key => fun value => Some (key, value)
      | _ => fun _ => None
      end x
  end.

Definition generated_of (ev : event gin_resp) : option string :=
  match ev with
  | existT c x =>
      match c return gin_resp c -> option string with
      | UuidNew => fun id => Some id
      | _ => fun _ => None
      end x
  end.

Definition params (tr : trace gin_resp) : list (string * string) :=
  omap param_of tr.
Definition generated (tr : trace gin_resp) : list string :=
  omap generated_of tr.

(** What the handler sent: the code and body of a [c.JSON], the code of a
    [c.Status]. *)
Definition response_of (c : gin_call) : option (Z * option H) :=
  match c with
  | JSON code obj => Some (code, Some obj)
  | Status code => Some (code, None)
  | _ => None
  end.

Definition responses (tr : trace gin_resp) : list (Z * option H) :=
  omap response_of (gin_calls tr).

Definition payload_of (c : gin_call) : option payload :=
  match c with
  | MarshalPayload p => Some p
  | _ => None
  end.

Definition payloads (tr : trace gin_resp) : list payload :=
  omap payload_of (gin_calls tr).

(** The error of a service call that failed. *)
Definition service_error (ev : event gin_resp) : option error :=
  match ev with
  | existT c x =>
      match c return gin_resp c -> option error with
      | SvcGetAllItems _ => err_of
      | SvcGetItemByID _ _ => err_of
      | SvcCreateItem _ | SvcUpdateItem _ | SvcDeleteItem _ => fun e => e
      | SvcGetItemPropertiesByItemID _ => err_of
      | SvcGetItemPropertyByID _ _ => err_of
      | SvcCreateItemProperty _ | SvcUpdateItemProperty _
      | SvcDeleteItemProperty _ _ => fun e => e
      | _ => fun _ => None
      end x
  end.

Definition service_errors (tr : trace gin_resp) : list error :=
  omap service_error tr.

(** The lines of [log.Printf]: format and arguments. *)
Definition printf_of (c : gin_call) : option (string * list string) :=
  match c with
  | LogPrintf format args => Some (format, args)
  | _ => None
  end.

Definition printed (tr : trace gin_resp) : list (string * list string) :=
  omap printf_of (gin_calls tr).

(** The body of the request along a trace: [taken] holds what an
    [io.ReadAll] drained from it and nothing has put back yet. The trace
    keeps the body whole when a drained body is put back as it was read
    before anything else reads or decodes it, and nothing else is ever
    assigned to it. *)
Fixpoint body_kept (taken : option string) (tr : trace gin_resp) : bool :=
  match tr with
  | [] => bool_decide (taken = None)
  | existT c x :: rest =>
      match c return gin_resp c -> bool with
      | ReadAllBody =>
          fun body =>
            match taken with
            | None => body_kept (Some body) rest
            | Some _ => false
            end
      | SetBody body =>
          fun _ =>
            match taken with
            | Some read => bool_decide (body = read) && body_kept None rest
            | None => false
            end
      | UnmarshalItem | UnmarshalProperty =>
          fun _ =>
            match taken with
            | None => body_kept None rest
            | Some _ => false
            end
      | _ => fun _ => body_kept taken rest
      end x
  end.

(** The headers of the request that were read, with their values. *)
Definition header_of (ev : event gin_resp) : option (string * string) :=
  match ev with
  | existT c x =>
      match c return gin_resp c -> option (string * string) with
      | GetHeader key => fun value => Some (key, value)
      | _ => fun _ => None
      end x
  end.

Definition headers (tr : trace gin_resp) : list (string * string) :=
  omap header_of tr.

(** The calls that read the body of the request. *)
Definition reads_body (c : gin_call) : bool :=
  match c with
  | ReadAllBody | UnmarshalItem | UnmarshalProperty => true
  | _ => false
  end.

Definition body_reads (tr : trace gin_resp) : list gin_call :=
  List.filter reads_body (gin_calls tr).

(** Whether the middleware passed the request on, and whether it stopped
    the chain. *)
Definition passed_on (tr : trace gin_resp) : bool :=
  existsb (fun c => if c is Next then true else false) (gin_calls tr).
Definition aborted (tr : trace gin_resp) : bool :=
  existsb (fun c => if c is Abort then true else false) (gin_calls tr).

End ginTrace.

(** ** The handlers on their services

    The application gives each handler the service of its entity
    ([provideServices] and [provideHandlers] of [internal/di]): a call of a
    method of [h.Service] runs the method of [internal/service/items]. The
    context of the request goes from the handler to the store through the
    service, which does not read it. *)

Module app.
Import Service.

Inductive app_call : Type :=
| Gin (c : gin.gin_call)
| Svc (c : svc_call).

Definition app_resp (c : app_call) : Type :=
  match c with
  | Gin c => gin.gin_resp c
  | Svc c => svc_resp c
  end.

Fixpoint lift {A} (p : prog svc_resp A) : prog app_resp A :=
  match p with
  | Ret a => Ret a
  | Vis c k => Vis (Svc c) (fun x => lift (k x))
  end.

Section Wiring.
Context `{JSON Item.t, JSON (list Item.t)}.
Context `{JSON ItemProperty.t, JSON (list ItemProperty.t)}.

(** The method of the service behind a call of a handler. *)
Definition service_of (c : gin.gin_call)
    : option (prog svc_resp (gin.gin_resp c)) :=
  match c return option (prog svc_resp (gin.gin_resp c)) with
  | gin.SvcGetAllItems _ => Some GetAllItems
  | gin.SvcGetItemByID _ id => Some (GetItemByID id)
  | gin.SvcCreateItem item => Some (CreateItem item)
  | gin.SvcUpdateItem item => Some (UpdateItem item)
  | gin.SvcDeleteItem id => Some (DeleteItem id)
  | gin.SvcGetItemPropertiesByItemID itemID =>
      Some (GetItemPropertiesByItemID itemID)
  | gin.SvcGetItemPropertyByID itemID id => Some (GetItemPropertyByID itemID id)
  | gin.SvcCreateItemProperty property => Some (CreateItemProperty property)
  | gin.SvcUpdateItemProperty property => Some (UpdateItemProperty property)
  | gin.SvcDeleteItemProperty itemID id => Some (DeleteItemProperty itemID id)
  | _ => None
  end.

(** A handler with the services in the place of its service calls. *)
Fixpoint link {A} (p : prog gin.gin_resp A) : prog app_resp A :=
  match p with
  | Ret a => Ret a
  | Vis c k =>
      match service_of c with
      | Some method => x ← lift method; link (k x)
      | None => Vis (Gin c) (fun x => link (k x))
      end
  end.

End Wiring.

(** The cache keys of a trace of the application. *)
Definition cache_key (c : app_call) : option string :=
  match c with
  | Svc c => ServiceTrace.cache_key c
  | Gin _ => None
  end.

Definition cache_keys (tr : trace app_resp) : list string :=
  omap cache_key (map (@projT1 _ _) tr).

(** The part of a trace that the handler made, and the part that the
    service made. *)
Definition of_gin (ev : event app_resp) : option (event gin.gin_resp) :=
  match ev with
  | existT c x =>
      match c return app_resp c -> option (event gin.gin_resp) with
      | Gin c => fun x => Some (existT c x)
      | Svc _ => fun _ => None
      end x
  end.

Definition of_svc (ev : event app_resp) : option (event svc_resp) :=
  match ev with
  | existT c x =>
      match c return app_resp c -> option (event svc_resp) with
      | Svc c => fun x => Some (existT c x)
      | Gin _ => fun _ => None
      end x
  end.

Definition handler_trace (tr : trace app_resp) : trace gin.gin_resp :=
  omap of_gin tr.
Definition service_trace (tr : trace app_resp) : trace svc_resp :=
  omap of_svc tr.

(** The error of a [jsonapi.MarshalPayload] that failed. *)
Definition marshal_error (ev : event gin.gin_resp) : option error :=
  match ev with
  | existT c x =>
      match c return gin.gin_resp c -> option error with
      | gin.MarshalPayload _ => fun e => e
      | _ => fun _ => None
      end x
  end.

Definition marshal_errors (tr : trace gin.gin_resp) : list error :=
  omap marshal_error tr.

End app.

(** ** The migrations: [internal/database]

    What the migrator and the constructor of the database connection call:
    [gorm.Open] on the MySQL and on the SQLite dialector, [db.DB()], the
    functions of [goose] and [log.Printf] with its formatted message. A
    [*gorm.DB] and a [*sql.DB] are handles. [errors.Is(err,
    goose.ErrNoNextVersion)] belongs to the libraries: the migrator is
    given it as [isErrNoNextVersion]. An error made by [fmt.Errorf] is an
    [ErrOther] with its message. *)

Module database.

Definition gormDB : Type := nat.
Definition sqlDB : Type := nat.

Inductive db_call : Type :=
| GormOpenMySQL (dsn : string)
| GormOpenSQLite (file : string)
| DB (db : gormDB)
| GooseSetBaseFS
| GooseSetDialect (dialect : string)
| GooseUp (db : sqlDB) (dir : string)
| GooseDown (db : sqlDB) (dir : string)
| GooseStatus (db : sqlDB) (dir : string)
| Printf (msg : string).

Definition db_resp (c : db_call) : Type :=
  match c with
  | GormOpenMySQL _ | GormOpenSQLite _ => result gormDB
  | DB _ => result sqlDB
  | GooseSetBaseFS | Printf _ => unit
  | GooseSetDialect _ | GooseUp _ _ | GooseDown _ _ | GooseStatus _ _ =>
      option error
  end.

Abbreviation dbprog := (prog db_resp).
Abbreviation call := (@call db_call db_resp) (only parsing).

(** [Migrator] handles database migrations using goose. *)
Record Migrator : Type := {
  db : sqlDB;
  dialect : string
}.

Definition NewMigrator (db : sqlDB) (dialect : string) : Migrator :=
  {| db := db; dialect := dialect |}.

Section Methods.
Variable isErrNoNextVersion : error -> bool.

(** [Up] runs all available migrations. *)
Definition Up (m : Migrator) : dbprog (option error) :=
  call GooseSetBaseFS;;
  err ← call (GooseSetDialect (dialect m));
  match err with
  | Some err =>
      mret (Some (ErrOther ("failed to set dialect " +:+ dialect m +:+ ": "
                            +:+ Error err)))
  | None =>
      err ← call (GooseUp (db m) "migrations");
      match err with
      | Some err =>
          if isErrNoNextVersion err then mret None
          else mret (Some (ErrOther ("failed to run migrations: "
                                     +:+ Error err)))
      | None => mret None
      end
  end.

(** [Down] rolls back the last migration. *)
Definition Down (m : Migrator) : dbprog (option error) :=
  call GooseSetBaseFS;;
  err ← call (GooseSetDialect (dialect m));
  match err with
  | Some err =>
      mret (Some (ErrOther ("failed to set dialect " +:+ dialect m +:+ ": "
                            +:+ Error err)))
  | None =>
      err ← call (GooseDown (db m) "migrations");
      match err with
      | Some err =>
          mret (Some (ErrOther ("failed to rollback migration: "
                                +:+ Error err)))
      | None => mret None
      end
  end.

(** [Status] prints the status of all migrations. *)
Definition Status (m : Migrator) : dbprog (option error) :=
  call GooseSetBaseFS;;
  err ← call (GooseSetDialect (dialect m));
  match err with
  | Some err =>
      mret (Some (ErrOther ("failed to set dialect " +:+ dialect m +:+ ": "
                            +:+ Error err)))
  | None =>
      err ← call (GooseStatus (db m) "migrations");
      match err with
      | Some err =>
          mret (Some (ErrOther ("failed to get migration status: "
                                +:+ Error err)))
      | None => mret None
      end
  end.

(** [NewGormDB] of [internal/di] creates a new GORM database connection:
    it attempts to connect to MySQL first, falling back to SQLite. *)
Definition NewGormDB (cfg : di.Config) : dbprog (result gormDB) :=
  let migrate (db : gormDB) (dialect : string) : dbprog (result gormDB) :=
    r ← call (DB db);
    match r with
    | Err err => mret (Err err)
    | Ok sqlDB =>
        let migrator := NewMigrator sqlDB dialect in
        err ← Up migrator;
        match err with
        | Some err => mret (Err err)
        | None =>
            call (Printf ("Database migrations completed successfully "
                          +:+ "(dialect: " +:+ dialect +:+ ")"));;
            mret (Ok db)
        end
    end in
  let dsn := config.GetMySQLDSN cfg in
  r ← call (GormOpenMySQL dsn);
  match r with
  | Err err =>
      call (Printf ("Failed to connect to MySQL: " +:+ Error err
                    +:+ ". Falling back to SQLite for demo."));;
      r ← call (GormOpenSQLite "gorm.db");
      match r with
      | Err err => mret (Err err)
      | Ok db => migrate db "sqlite3"
      end
  | Ok db => migrate db "mysql"
  end.

End Methods.

(** What a trace shows. *)
Definition db_calls (tr : trace db_resp) : list db_call :=
  map (@projT1 _ _) tr.

(** The calls of [goose] that run on the database. *)
Definition on_database (c : db_call) : bool :=
  match c with
  | GooseUp _ _ | GooseDown _ _ | GooseStatus _ _ => true
  | _ => false
  end.

(** The connection an event opened. *)
Definition opened (ev : event db_resp) : option (string * gormDB) :=
  match ev with
  | existT c x =>
      match c return db_resp c -> option (string * gormDB) with
      | GormOpenMySQL _ => fun r =>
          match r with Ok db => Some ("mysql", db) | Err _ => None end
      | GormOpenSQLite _ => fun r =>
          match r with Ok db => Some ("sqlite3", db) | Err _ => None end
      | _ => fun _ => None
      end x
  end.

(** The attempts to open a connection, with what they gave. *)
Definition attempt_of (ev : event db_resp)
    : option (db_call * result gormDB) :=
  match ev with
  | existT c x =>
      match c return db_resp c -> option (db_call * result gormDB) with
      | GormOpenMySQL dsn => fun r => Some (GormOpenMySQL dsn, r)
      | GormOpenSQLite file => fun r => Some (GormOpenSQLite file, r)
      | _ => fun _ => None
      end x
  end.

Definition attempts (tr : trace db_resp) : list (db_call * result gormDB) :=
  omap attempt_of tr.

(** The dialects given to [goose], the connections asked for their
    [*sql.DB], and the messages printed. *)
Definition dialect_of (c : db_call) : option string :=
  match c with
  | GooseSetDialect dialect => Some dialect
  | _ => None
  end.

Definition asked_of (c : db_call) : option gormDB :=
  match c with
  | DB db => Some db
  | _ => None
  end.

Definition message_of (c : db_call) : option string :=
  match c with
  | Printf msg => Some msg
  | _ => None
  end.

Definition dialects (tr : trace db_resp) : list string :=
  omap dialect_of (db_calls tr).
Definition asked (tr : trace db_resp) : list gormDB :=
  omap asked_of (db_calls tr).
Definition messages (tr : trace db_resp) : list string :=
  omap message_of (db_calls tr).

(** The migrations that ran to their end: a [goose.Up] on the [migrations]
    directory that returned nil or an error that is
    [goose.ErrNoNextVersion]. *)
Definition migrated (isErrNoNextVersion : error -> bool)
    (ev : event db_resp) : bool :=
  match ev with
  | existT c x =>
      match c return db_resp c -> bool with
      | GooseUp _ dir => fun err =>
          bool_decide (dir = "migrations") &&
          match err with
          | None => true
          | Some err => isErrNoNextVersion err
          end
      | _ => fun _ => false
      end x
  end.

(** The calls of [goose] that failed, with their errors. *)
Definition failure_of (ev : event db_resp) : option (db_call * error) :=
  match ev with
  | existT c x =>
      match c return db_resp c -> option (db_call * error) with
      | GooseSetDialect d => fun err => pair (GooseSetDialect d) <$> err
      | GooseUp db dir => fun err => pair (GooseUp db dir) <$> err
      | GooseDown db dir => fun err => pair (GooseDown db dir) <$> err
      | GooseStatus db dir => fun err => pair (GooseStatus db dir) <$> err
      | _ => fun _ => None
      end x
  end.

Definition failures (tr : trace db_resp) : list (db_call * error) :=
  omap failure_of tr.

End database.

(** ** Values for the HTTP layer *)

Module DemoHTTP.

(** A parser in the place of [uuid.Parse]: it accepts the strings of 36
    characters without a path separator. *)
Definition uuid_Parse (s : string) : result string :=
  if (String.length s =? 36)%nat && negb (filepath.hasSeparator s)
  then Ok s
  else Err (ErrOther "invalid UUID length").

(** A logging service at debug level. *)
Definition logger : logging.LoggingService := {| logging.level := 4 |}.

Definition widget_id : string := "7d444840-9dc0-11d1-b245-5ffdce74fad2".

End DemoHTTP.

(** * Properties *)

(** ** Programs *)

Lemma run_bind {C} {R : C -> Type} {A B W} (h : handler R W)
    (p : prog R A) (f : A -> prog R B) (w : W) :
  run h (bind p f) w =
  let r1 := run h p w in
  let r2 := run h (f (value_of r1)) (state_of r1) in
  (value_of r2, state_of r2, (trace_of r1 ++ trace_of r2)%list).
Proof.
  unfold value_of, state_of, trace_of.
  revert w. induction p as [a | c k IH]; intros w; simpl.
  - by destruct (run h (f a) w) as [[? ?] ?].
  - rewrite IH. reflexivity.
Qed.

Lemma every_run_sound {C} {R : C -> Type} {A W} (h : handler R W)
    (p : prog R A) (Q : trace R -> A -> Prop) (w : W) :
  every_run p Q -> Q (trace_of (run h p w)) (value_of (run h p w)).
Proof.
  unfold value_of, trace_of.
  revert Q w. induction p as [a | c k IH]; intros Q w HQ; simpl in *.
  - exact HQ.
  - apply (IH _ (fun tr a => Q (existT c (h c w).1 :: tr) a)), HQ.
Qed.

(** [always p Q]: against every implementation of the interface and from
    every state, the trace and the value of the run of [p] satisfy [Q]. *)
Definition always {C} {R : C -> Type} {A} (p : prog R A)
    (Q : trace R -> A -> Prop) : Prop :=
  forall (W : Type) (h : handler R W) (w : W),
    Q (trace_of (run h p w)) (value_of (run h p w)).

Lemma always_intro {C} {R : C -> Type} {A} (p : prog R A)
    (Q : trace R -> A -> Prop) :
  every_run p Q -> always p Q.
Proof. intros Hp W h w. by apply every_run_sound. Qed.

(** ** Properties of the entity services *)

Module ServiceTheory.
Import Service.

Create HintDb svc_ops.
#[export] Hint Unfold GetAllItems GetItemByID CreateItem UpdateItem DeleteItem
  GetItemPropertiesByItemID GetItemPropertyByID CreateItemProperty
  UpdateItemProperty DeleteItemProperty : svc_ops.

(** Case analysis on everything the calls of a program may return. *)
Ltac paths :=
  repeat first
    [ progress cbn in *
    | progress intros
    | progress subst
    | match goal with
      | |- context [cacheHit ?r] => destruct (cacheHit r) eqn:?
      | |- context [Marshal ?v] => destruct (Marshal v) eqn:?
      | |- context [match ?x with _ => _ end] => is_var x; destruct x
      end ].

(** The same on a run against a handler [h]. *)
Ltac runs h :=
  repeat first
    [ progress cbn in *
    | match goal with
      | |- context [h ?c ?w] =>
          is_var w; destruct (h c w) as [? ?] eqn:?
      | |- context [cacheHit ?r] => destruct (cacheHit r) eqn:?
      | |- context [Marshal ?v] => destruct (Marshal v) eqn:?
      | |- context [match ?x with _ => _ end] => is_var x; destruct x
      end ].

(** A cache hit, as the reads test it: no error, a value that is not
    empty, and one that deserializes into the entity [v]. *)
Definition is_hit {A} `{JSON A} (cached : result string) (v : A) : Prop :=
  exists s : string, cached = Ok s /\ s <> "" /\ Unmarshal s = Ok v.

Lemma cacheHit_Some {A} `{JSON A} (cached : result string) (v : A) :
  cacheHit cached = Some v <-> is_hit cached v.
Proof.
  unfold cacheHit, is_hit. split.
  - destruct cached as [s | e]; [| discriminate].
    destruct (decide (s <> "")) as [Hs | Hs]; [| discriminate].
    destruct (Unmarshal s) as [v' | e] eqn:Hu; [| discriminate].
    intros [= ->]. eauto.
  - intros (s & -> & Hs & Hu).
    destruct (decide (s <> "")) as [_ | Hs']; [| contradiction].
    rewrite Hu. reflexivity.
Qed.

Lemma cacheHit_None {A} `{JSON A} (cached : result string) :
  cacheHit (A:=A) cached = None <-> forall v : A, ~ is_hit cached v.
Proof.
  split.
  - intros Hn v Hv. apply cacheHit_Some in Hv. congruence.
  - intros Hn. destruct (cacheHit (A:=A) cached) as [v |] eqn:Hc; [| reflexivity].
    apply cacheHit_Some in Hc. destruct (Hn v Hc).
Qed.

(** A cache that gives back what was just set under a key. *)
Definition cache_get_after_set {W} (h : handler svc_resp W) : Prop :=
  forall (key value : string) (ttl : Duration) (w w' : W),
    h (CacheSet key value ttl) w = (None, w') ->
    (h (CacheGet key) w').1 = Ok value.

(** The read [p] of the entity under [key], whose store call is [sc]:
    on a hit it returns the cached entity and calls no store; otherwise it
    calls the store once and returns exactly what the store returned. *)
Definition cache_aside_read {A} `{JSON A} (p : svc (result A))
    (key : string) (sc : svc_call) (get : svc_resp sc -> result A) : Prop :=
  forall (W : Type) (h : handler svc_resp W) (w : W),
    let cached := (h (CacheGet key) w).1 in
    let r := run h p w in
    (forall v : A, is_hit cached v ->
       value_of r = Ok v /\ store_calls (trace_of r) = []) /\
    ((forall v : A, ~ is_hit cached v) ->
       exists x : svc_resp sc,
         store_events (trace_of r) = [existT sc x] /\ value_of r = get x).

(** After a read [p] that ended by setting [data] under its key, a second
    run of [p] on the state the first one left is served from a cache
    that gives back what was set, without a store call. *)
Definition second_read_from_cache {A} `{JSON A} (p : svc (result A))
    (key : string) : Prop :=
  forall (W : Type) (h : handler svc_resp W) (w : W) (data : string) (v : A),
    cache_get_after_set h ->
    last (trace_of (run h p w)) ≫= populated = Some (key, data) ->
    data <> "" -> Unmarshal data = Ok v ->
    let r2 := run h p (state_of (run h p w)) in
    value_of r2 = Ok v /\ store_calls (trace_of r2) = [].

(** The read-path half of "cache failures are not surfaced": when some
    cache call of the run failed, the store is called once and its answer
    is the answer of the read; and an error that is returned is an error
    the store returned. *)
Definition read_ignores_cache_failures {A} (p : svc (result A))
    (sc : svc_call) (get : svc_resp sc -> result A) : Prop :=
  forall (W : Type) (h : handler svc_resp W) (w : W),
    let r := run h p w in
    (cache_errors (trace_of r) <> [] ->
       exists x : svc_resp sc,
         store_events (trace_of r) = [existT sc x] /\ value_of r = get x) /\
    (forall e : error,
       value_of r = Err e -> In e (store_errors (trace_of r))).

(** The write-path half: whatever the cache calls return, the store is
    called once and the write returns exactly the store's error, nil when
    the store succeeded. *)
Definition write_ignores_cache_failures (p : svc (option error))
    (sc : svc_call) (get : svc_resp sc -> option error) : Prop :=
  forall (W : Type) (h : handler svc_resp W) (w : W),
    let r := run h p w in
    exists x : svc_resp sc,
      store_events (trace_of r) = [existT sc x] /\ value_of r = get x.

(** A store failure is returned unchanged and no cache [Set] or [Delete]
    is made in that run. [failure] reads the error off the returned
    value. *)
Definition store_failure_atomic {A} (failure : A -> option error)
    (p : svc A) : Prop :=
  forall (W : Type) (h : handler svc_resp W) (w : W) (e : error),
    In e (store_errors (trace_of (run h p w))) ->
    failure (value_of (run h p w)) = Some e /\
    cache_writes (trace_of (run h p w)) = [].

(** The write [p] calls the store once, with [sc]; when the store
    succeeded, its cache calls are exactly the deletes of [keys], in that
    order, and it returns nil. *)
Definition invalidates (p : svc (option error)) (sc : svc_call)
    (keys : list string) : Prop :=
  forall (W : Type) (h : handler svc_resp W) (w : W),
    let r := run h p w in
    store_calls (trace_of r) = [sc] /\
    (store_errors (trace_of r) = [] ->
       cache_calls (trace_of r) = map CacheDelete keys /\
       value_of r = None).

(** Whatever the store and the cache return, every cache [Set] or [Delete]
    of [p] is the delete of one of [keys]. *)
Definition writes_only {A} (p : svc A) (keys : list string) : Prop :=
  forall (W : Type) (h : handler svc_resp W) (w : W) (c : svc_call),
    In c (cache_writes (trace_of (run h p w))) ->
    In c (map CacheDelete keys).

(** The cache keys that belong to the item [itemID]: its own key, the key
    of the list of its properties and the key of any of its properties. *)
Definition key_of_item (itemID key : string) : Prop :=
  key = itemCacheKeyPrefix +:+ itemID \/
  key = itemPropertiesListCacheKeyFmt itemID \/
  exists id : string,
    key = itemPropertyCacheKeyPrefix +:+ itemID +:+ ":" +:+ id.

Lemma trace_nil_state {A W} (h : handler svc_resp W) (p : svc A) (w : W) :
  trace_of (run h p w) = [] -> state_of (run h p w) = w.
Proof. destruct p; cbn; [reflexivity | discriminate]. Qed.

Lemma run_last_populated {A W} (h : handler svc_resp W) (p : svc A) (w : W)
    (key data : string) :
  last (trace_of (run h p w)) ≫= populated = Some (key, data) ->
  exists (ttl : Duration) (w' : W),
    h (CacheSet key data ttl) w' = (None, state_of (run h p w)).
Proof.
  revert w. induction p as [a | c k IH]; intros w; [discriminate |].
  change (trace_of (run h (Vis c k) w))
    with (existT c (h c w).1 :: trace_of (run h (k (h c w).1) (h c w).2)).
  change (state_of (run h (Vis c k) w))
    with (state_of (run h (k (h c w).1) (h c w).2)).
  destruct (trace_of (run h (k (h c w).1) (h c w).2)) as [| ev tr] eqn:Htr.
  - rewrite (trace_nil_state _ _ _ Htr). cbn.
    destruct c; try discriminate. cbn.
    match goal with
    | |- context [h ?c w] => destruct (h c w) as [[e |] w'] eqn:Hh
    end; cbn; [discriminate |].
    intros [= -> ->]. eauto.
  - rewrite last_cons. rewrite <- Htr.
    destruct (last (trace_of (run h (k (h c w).1) (h c w).2))) eqn:Hl.
    + rewrite <- Hl. apply IH.
    + rewrite Htr in Hl. by rewrite last_cons in Hl; destruct (last tr).
Qed.

Lemma second_read_of_read {A} `{JSON A} (p : svc (result A)) (key : string)
    (sc : svc_call) (get : svc_resp sc -> result A) :
  cache_aside_read p key sc get -> second_read_from_cache p key.
Proof.
  intros Hread W h w data v Hlaw Hpop Hne Hun.
  apply run_last_populated in Hpop as (ttl & w' & Hset).
  apply Hlaw in Hset.
  apply (Hread W h (state_of (run h p w))).
  exists data. auto.
Qed.

Lemma store_failure_atomic_intro {A} (failure : A -> option error)
    (p : svc A) :
  every_run p (fun tr a => forall e : error,
    In e (store_errors tr) ->
    failure a = Some e /\ cache_writes tr = []) ->
  store_failure_atomic failure p.
Proof.
  intros Hp W h w e.
  exact (every_run_sound h p _ w Hp e).
Qed.

Lemma invalidates_intro (p : svc (option error)) (sc : svc_call)
    (keys : list string) :
  every_run p (fun tr a =>
    store_calls tr = [sc] /\
    (store_errors tr = [] ->
       cache_calls tr = map CacheDelete keys /\ a = None)) ->
  invalidates p sc keys.
Proof. intros Hp W h w. exact (every_run_sound h p _ w Hp). Qed.

Lemma read_ignores_intro {A} (p : svc (result A))
    (sc : svc_call) (get : svc_resp sc -> result A) :
  every_run p (fun tr a =>
    (cache_errors tr <> [] ->
       exists x : svc_resp sc,
         store_events tr = [existT sc x] /\ a = get x) /\
    (forall e : error, a = Err e -> In e (store_errors tr))) ->
  read_ignores_cache_failures p sc get.
Proof. intros Hp W h w. exact (every_run_sound h p _ w Hp). Qed.

Lemma write_ignores_intro (p : svc (option error))
    (sc : svc_call) (get : svc_resp sc -> option error) :
  every_run p (fun tr a =>
    exists x : svc_resp sc,
      store_events tr = [existT sc x] /\ a = get x) ->
  write_ignores_cache_failures p sc get.
Proof. intros Hp W h w. exact (every_run_sound h p _ w Hp). Qed.

Lemma writes_only_intro {A} (p : svc A) (keys : list string) :
  every_run p (fun tr _ => forall c : svc_call,
    In c (cache_writes tr) -> In c (map CacheDelete keys)) ->
  writes_only p keys.
Proof. intros Hp W h w. exact (every_run_sound h p _ w Hp). Qed.

(** Keys of different shapes differ, and keys of one shape differ when
    their ids do. *)
Lemma list_key_not_property_key (X itemID id : string) :
  "item_properties:list:" +:+ X <> "item_property:" +:+ itemID +:+ ":" +:+ id.
Proof. discriminate. Qed.

Lemma list_key_not_item_key (X id : string) :
  "item_properties:list:" +:+ X <> "item:" +:+ id.
Proof. discriminate. Qed.

Lemma list_key_inj (X Y : string) :
  "item_properties:list:" +:+ X = "item_properties:list:" +:+ Y -> X = Y.
Proof. cbn. intros [= Heq]. exact Heq. Qed.

Lemma items_list_not_item_key (id : string) :
  "items:list" <> "item:" +:+ id.
Proof. discriminate. Qed.

Lemma list_key_of_other_item (X Y : string) :
  X <> Y -> ~ key_of_item Y ("item_properties:list:" +:+ X).
Proof.
  intros Hne [Hk | [Hk | [id Hk]]].
  - exact (list_key_not_item_key _ _ Hk).
  - exact (Hne (list_key_inj _ _ Hk)).
  - exact (list_key_not_property_key _ _ _ Hk).
Qed.

Section Props.
Context `{JSON Item.t, JSON (list Item.t)}.
Context `{JSON ItemProperty.t, JSON (list ItemProperty.t)}.

Ltac read_proof :=
  let h := fresh "h" in
  intros ? h ?; unfold value_of, trace_of, state_of; cbn;
  match goal with
  | |- context [h ?c ?w] => destruct (h c w) as [? ?] eqn:?
  end; cbn; split;
  [ let Hv := fresh "Hv" in
    intros ? Hv; apply cacheHit_Some in Hv; rewrite Hv; cbn; done
  | let Hv := fresh "Hv" in
    intros Hv; apply cacheHit_None in Hv; rewrite Hv; runs h;
    eexists; split; reflexivity ].

Lemma GetAllItems_read :
  cache_aside_read GetAllItems itemsListCacheKey
    ItemRepoGetAll (fun x => x).
Proof. read_proof. Qed.

Lemma GetItemByID_read (id : string) :
  cache_aside_read (GetItemByID id) (itemCacheKeyPrefix +:+ id)
    (ItemRepoGetByID id) (fun x => x).
Proof. read_proof. Qed.

Lemma GetItemPropertiesByItemID_read (itemID : string) :
  cache_aside_read (GetItemPropertiesByItemID itemID)
    (itemPropertiesListCacheKeyFmt itemID)
    (PropRepoGetAllByItemID itemID) (fun x => x).
Proof. read_proof. Qed.

Lemma GetItemPropertyByID_read (itemID id : string) :
  cache_aside_read (GetItemPropertyByID itemID id)
    (itemPropertyCacheKeyPrefix +:+ itemID +:+ ":" +:+ id)
    (PropRepoGetByID itemID id) (fun x => x).
Proof. read_proof. Qed.

(** C1. Cache-aside read correctness. Each of the four reads
    ([GetAllItems], [GetItemByID], [GetItemPropertiesByItemID],
    [GetItemPropertyByID]) returns the cached entity without any store
    call when the cache [Get] returned no error, a value that is not
    empty and one that deserializes; otherwise it calls the store once
    and returns exactly the store's result. And after a first read that
    populated the cache, a second read on the state it left, against a
    cache that gives back what was set, returns the cached entity
    without a store call. *)
Theorem cache_aside_read_correct :
  (cache_aside_read GetAllItems "items:list" ItemRepoGetAll (fun x => x) /\
   second_read_from_cache GetAllItems "items:list") /\
  (forall id : string,
     cache_aside_read (GetItemByID id) ("item:" +:+ id)
       (ItemRepoGetByID id) (fun x => x) /\
     second_read_from_cache (GetItemByID id) ("item:" +:+ id)) /\
  (forall itemID : string,
     cache_aside_read (GetItemPropertiesByItemID itemID)
       ("item_properties:list:" +:+ itemID)
       (PropRepoGetAllByItemID itemID) (fun x => x) /\
     second_read_from_cache (GetItemPropertiesByItemID itemID)
       ("item_properties:list:" +:+ itemID)) /\
  (forall itemID id : string,
     cache_aside_read (GetItemPropertyByID itemID id)
       ("item_property:" +:+ itemID +:+ ":" +:+ id)
       (PropRepoGetByID itemID id) (fun x => x) /\
     second_read_from_cache (GetItemPropertyByID itemID id)
       ("item_property:" +:+ itemID +:+ ":" +:+ id)).
Proof.
  split; [| split; [| split]]; intros; split;
    eauto using second_read_of_read, GetAllItems_read, GetItemByID_read,
      GetItemPropertiesByItemID_read, GetItemPropertyByID_read.
Qed.

Ltac conjuncts :=
  repeat first
    [ match goal with |- _ /\ _ => split end | progress intros ].

Ltac atomic_proof :=
  apply store_failure_atomic_intro; autounfold with svc_ops; paths;
  intuition (subst; auto; congruence).

(** C2. Store-failure atomicity. In every service operation, when the
    store call fails with [e], the operation returns [e] and the run
    contains no cache [Set] and no cache [Delete]. *)
Theorem store_failure_no_cache_mutation :
  store_failure_atomic err_of GetAllItems /\
  (forall id, store_failure_atomic err_of (GetItemByID id)) /\
  (forall item, store_failure_atomic (fun e => e) (CreateItem item)) /\
  (forall item, store_failure_atomic (fun e => e) (UpdateItem item)) /\
  (forall id, store_failure_atomic (fun e => e) (DeleteItem id)) /\
  (forall itemID,
     store_failure_atomic err_of (GetItemPropertiesByItemID itemID)) /\
  (forall itemID id,
     store_failure_atomic err_of (GetItemPropertyByID itemID id)) /\
  (forall itemProperty,
     store_failure_atomic (fun e => e) (CreateItemProperty itemProperty)) /\
  (forall itemProperty,
     store_failure_atomic (fun e => e) (UpdateItemProperty itemProperty)) /\
  (forall itemID id,
     store_failure_atomic (fun e => e) (DeleteItemProperty itemID id)).
Proof. conjuncts; atomic_proof. Qed.

Ltac invalidates_proof :=
  apply invalidates_intro; autounfold with svc_ops; paths;
  (split; [reflexivity | intros; (discriminate || (split; reflexivity))]).

(** C3. Update and delete invalidate two keys. After a successful
    store update or delete, the cache calls of the service are exactly
    the delete of the key of the entity and the delete of the key of the
    list it belongs to; there is no other cache call, so no other cache
    write. *)
Theorem update_delete_invalidate_entity_and_list :
  (forall item : Item.t,
     invalidates (UpdateItem item) (ItemRepoUpdate item)
       ["item:" +:+ Item.ID item; "items:list"]) /\
  (forall id : string,
     invalidates (DeleteItem id) (ItemRepoDelete id)
       ["item:" +:+ id; "items:list"]) /\
  (forall itemProperty : ItemProperty.t,
     invalidates (UpdateItemProperty itemProperty)
       (PropRepoUpdate itemProperty)
       ["item_property:" +:+ ItemProperty.ItemID itemProperty
          +:+ ":" +:+ ItemProperty.ID itemProperty;
        "item_properties:list:" +:+ ItemProperty.ItemID itemProperty]) /\
  (forall itemID id : string,
     invalidates (DeleteItemProperty itemID id) (PropRepoDelete itemID id)
       ["item_property:" +:+ itemID +:+ ":" +:+ id;
        "item_properties:list:" +:+ itemID]).
Proof. conjuncts; invalidates_proof. Qed.

Ltac writes_only_proof :=
  apply writes_only_intro; autounfold with svc_ops; paths; tauto.

(** C4. Scope of the invalidation on create. [CreateItemProperty] for a
    property of item [X] makes, after a successful store create, the
    single cache call [Delete "item_properties:list:X"], and whatever
    the store and the cache return it writes or deletes no other key;
    that key is not a single-property key and not a key of another item
    [Y]. [CreateItem] likewise deletes only ["items:list"], which is not
    the key of a single item. *)
Theorem create_invalidates_list_key_only :
  (forall itemProperty : ItemProperty.t,
     let X := ItemProperty.ItemID itemProperty in
     invalidates (CreateItemProperty itemProperty)
       (PropRepoCreate itemProperty) ["item_properties:list:" +:+ X] /\
     writes_only (CreateItemProperty itemProperty)
       ["item_properties:list:" +:+ X] /\
     (forall itemID id : string,
        "item_properties:list:" +:+ X
        <> "item_property:" +:+ itemID +:+ ":" +:+ id) /\
     (forall Y : string,
        X <> Y -> ~ key_of_item Y ("item_properties:list:" +:+ X))) /\
  (forall item : Item.t,
     invalidates (CreateItem item) (ItemRepoCreate item) ["items:list"] /\
     writes_only (CreateItem item) ["items:list"] /\
     (forall id : string, "items:list" <> "item:" +:+ id)).
Proof.
  conjuncts.
  - invalidates_proof.
  - writes_only_proof.
  - apply list_key_not_property_key.
  - by apply list_key_of_other_item.
  - invalidates_proof.
  - writes_only_proof.
  - apply items_list_not_item_key.
Qed.

Ltac read_ignores_proof :=
  apply read_ignores_intro; autounfold with svc_ops; paths;
  try match goal with
    | Hc : cacheHit _ = Some _ |- _ =>
        apply cacheHit_Some in Hc as (? & -> & ? & ?); cbn
    end;
  (split;
   [ intros; first [ congruence | eexists; split; reflexivity ]
   | intros ? [= <-]; auto ]).

Ltac write_ignores_proof :=
  apply write_ignores_intro; autounfold with svc_ops; paths;
  eexists; split; reflexivity.

(** C5. Cache failures are never surfaced. In each read, when a cache
    call failed (the [Get], or the [Set] that populates), the read
    returns exactly what the store returned; in each write, whatever the
    cache [Delete] calls return, the write returns exactly the store's
    error, nil when the store succeeded. An error that a read returns
    is an error the store returned. *)
Theorem cache_failures_never_surface :
  read_ignores_cache_failures GetAllItems ItemRepoGetAll (fun x => x) /\
  (forall id,
     read_ignores_cache_failures (GetItemByID id)
       (ItemRepoGetByID id) (fun x => x)) /\
  (forall itemID,
     read_ignores_cache_failures (GetItemPropertiesByItemID itemID)
       (PropRepoGetAllByItemID itemID) (fun x => x)) /\
  (forall itemID id,
     read_ignores_cache_failures (GetItemPropertyByID itemID id)
       (PropRepoGetByID itemID id) (fun x => x)) /\
  (forall item,
     write_ignores_cache_failures (CreateItem item)
       (ItemRepoCreate item) (fun e => e)) /\
  (forall item,
     write_ignores_cache_failures (UpdateItem item)
       (ItemRepoUpdate item) (fun e => e)) /\
  (forall id,
     write_ignores_cache_failures (DeleteItem id)
       (ItemRepoDelete id) (fun e => e)) /\
  (forall itemProperty,
     write_ignores_cache_failures (CreateItemProperty itemProperty)
       (PropRepoCreate itemProperty) (fun e => e)) /\
  (forall itemProperty,
     write_ignores_cache_failures (UpdateItemProperty itemProperty)
       (PropRepoUpdate itemProperty) (fun e => e)) /\
  (forall itemID id,
     write_ignores_cache_failures (DeleteItemProperty itemID id)
       (PropRepoDelete itemID id) (fun e => e)).
Proof.
  conjuncts; first [ read_ignores_proof | write_ignores_proof ].
Qed.
End Props.

(** *** The theorems on the store and the cache in memory *)

Import Demo.

Lemma handle_get_after_set : cache_get_after_set handle.
Proof.
  intros key value ttl w w'. unfold handle, cached.
  destruct (cache_down w) as [err |] eqn:Hdown; [discriminate |].
  intros [= <-]. cbn. rewrite Hdown. cbn.
  by rewrite lookup_insert_eq.
Qed.

(** The first read of [I1] misses, calls the store and returns the widget
    of the store; the second one is served from the cache. *)
Lemma cache_aside_read_correct_witness :
  let r1 := run handle (GetItemByID "I1") start in
  let r2 := run handle (GetItemByID "I1") (state_of r1) in
  (exists x : result Item.t,
     store_events (trace_of r1) = [existT (ItemRepoGetByID "I1") x] /\
     value_of r1 = x) /\
  (value_of r2 = Ok widget /\ store_calls (trace_of r2) = []).
Proof.
  destruct cache_aside_read_correct as (_ & Hitem & _).
  destruct (Hitem "I1") as [Hread Hsecond]. split.
  - apply (Hread world handle start).
    intros v (s & Hs & _). discriminate Hs.
  - apply (Hsecond world handle start "I1,Widget" widget).
    + exact handle_get_after_set.
    + vm_compute. reflexivity.
    + discriminate.
    + reflexivity.
Defined.

(** With the store down, the update returns the error of the store and
    touches no cache key. *)
Lemma store_failure_no_cache_mutation_witness :
  let r := run handle (UpdateItem widget2) store_is_down in
  value_of r = Some (ErrOther "connection refused") /\
  cache_writes (trace_of r) = [].
Proof.
  destruct store_failure_no_cache_mutation as (_ & _ & _ & Hupdate & _).
  apply (Hupdate widget2 world handle store_is_down).
  vm_compute. left. reflexivity.
Defined.

(** The update of the scenario deletes [item:I1] and [items:list]. *)
Lemma update_delete_invalidate_witness :
  let r := run handle (UpdateItem widget2) start in
  cache_calls (trace_of r) = [CacheDelete "item:I1"; CacheDelete "items:list"] /\
  value_of r = None.
Proof.
  destruct update_delete_invalidate_entity_and_list as (Hupdate & _).
  apply (Hupdate widget2 world handle start).
  vm_compute. reflexivity.
Defined.

(** Creating a property of [I1] deletes the key of the list of the
    properties of [I1] and nothing else. *)
Lemma create_invalidates_list_key_only_witness :
  let r := run handle (CreateItemProperty colour) start in
  cache_calls (trace_of r) = [CacheDelete "item_properties:list:I1"] /\
  value_of r = None.
Proof.
  destruct create_invalidates_list_key_only as (Hcreate & _).
  destruct (Hcreate colour) as (Hinv & _).
  apply (Hinv world handle start).
  vm_compute. reflexivity.
Defined.

(** With the cache down, the read of [I1] returns what the store returns. *)
Lemma cache_failures_never_surface_witness :
  let r := run handle (GetItemByID "I1") cache_is_down in
  exists x : result Item.t,
    store_events (trace_of r) = [existT (ItemRepoGetByID "I1") x] /\
    value_of r = x.
Proof.
  destruct cache_failures_never_surface as (_ & Hitem & _).
  apply (Hitem "I1" world handle cache_is_down).
  vm_compute. discriminate.
Defined.

(** The scenario of the specification, run: the first read returns the
    widget and leaves [item:I1] in the cache; the update leaves neither
    [item:I1] nor [items:list]; the read after it returns the new title. *)
Example scenario :
  let a := run handle (GetItemByID "I1") start in
  let b := run handle (UpdateItem widget2) (state_of a) in
  let c := run handle (GetItemByID "I1") (state_of b) in
  value_of a = Ok widget /\
  cache (state_of a) !! "item:I1" = Some "I1,Widget" /\
  value_of b = None /\
  cache (state_of b) !! "item:I1" = None /\
  cache (state_of b) !! "items:list" = None /\
  value_of c = Ok widget2 /\
  store_calls (trace_of c) = [ItemRepoGetByID "I1"].
Proof. vm_compute. repeat split; reflexivity. Qed.

End ServiceTheory.

(** ** The path functions *)

Module filepathTheory.
Import filepath.

Example Base_examples :
  Base "" = "." /\ Base "/" = "/" /\ Base "///" = "/" /\ Base "." = "." /\
  Base ".." = ".." /\ Base "a/b" = "b" /\ Base "a/b//" = "b" /\
  Base "item:1" = "item:1" /\ Base "../../etc/passwd" = "passwd".
Proof. repeat split; reflexivity. Qed.

Example Clean_examples :
  Clean "" = "." /\ Clean "/" = "/" /\ Clean "a//b/../c/." = "a/c" /\
  Clean "/../a" = "/a" /\ Clean "../../a" = "../../a" /\
  Clean "a/.." = "." /\ Clean "a/../.." = ".." /\ Clean "./.cache/" = ".cache".
Proof. repeat split; reflexivity. Qed.

Example Join_examples :
  Join ".cache" "x.cache" = ".cache/x.cache" /\ Join "" "x" = "x" /\
  Join "/" "x" = "/x" /\ Join "a/" "x" = "a/x" /\ Join "a" "../b" = "b".
Proof. repeat split; reflexivity. Qed.

(** A plain file name: one element, which is not empty and is neither of
    the two names that lead out of a directory. *)
Definition plain (name : string) : Prop :=
  hasSeparator name = false /\ name <> "" /\ name <> "." /\ name <> "..".

(** The string of a cleaned directory up to the name of a file in it. *)
Fixpoint elementsPrefix (elems : list string) : string :=
  match elems with
  | [] => ""
  | e :: es => e +:+ "/" +:+ elementsPrefix es
  end.

Definition dirPrefix (p : bool * list string) : string :=
  (if p.1 then "/" else "") +:+ elementsPrefix p.2.

Lemma append_cons (c : ascii) (a b : string) :
  String c a +:+ b = String c (a +:+ b).
Proof. reflexivity. Qed.

Lemma append_assoc (a b c : string) : (a +:+ b) +:+ c = a +:+ (b +:+ c).
Proof.
  induction a as [| x a IH]; [reflexivity |].
  rewrite !append_cons, IH. reflexivity.
Qed.

Lemma length_append (a b : string) :
  String.length (a +:+ b) = (String.length a + String.length b)%nat.
Proof.
  induction a as [| x a IH]; [reflexivity |].
  rewrite append_cons. cbn [String.length]. rewrite IH. reflexivity.
Qed.

Lemma append_inj_r (a b s : string) : a +:+ s = b +:+ s -> a = b.
Proof.
  revert b. induction a as [| x a IH]; intros [| y b] Heq.
  - reflexivity.
  - change (s = String y (b +:+ s)) in Heq.
    apply (f_equal String.length) in Heq. cbn [String.length] in Heq.
    rewrite length_append in Heq. lia.
  - change (String x (a +:+ s) = s) in Heq.
    apply (f_equal String.length) in Heq. cbn [String.length] in Heq.
    rewrite length_append in Heq. lia.
  - rewrite !append_cons in Heq. injection Heq as -> Heq.
    f_equal. exact (IH _ Heq).
Qed.

Lemma hasSeparator_append (a b : string) :
  hasSeparator (a +:+ b) = hasSeparator a || hasSeparator b.
Proof.
  induction a as [| x a IH]; [reflexivity |].
  rewrite append_cons. cbn [hasSeparator]. rewrite IH.
  by rewrite orb_assoc.
Qed.

Lemma isRooted_hasSeparator (path : string) :
  isRooted path = true -> hasSeparator path = true.
Proof. destruct path as [| c rest]; cbn; [done | by intros ->]. Qed.

Lemma lastElement_plain (path : string) :
  hasSeparator (lastElement path) = false.
Proof.
  induction path as [| c rest IH]; [reflexivity |]. cbn.
  destruct (hasSeparator rest) eqn:Hrest; [exact IH |].
  destruct (IsPathSeparator c) eqn:Hc; [exact Hrest |].
  cbn. by rewrite Hc, Hrest.
Qed.

Lemma lastElement_id (path : string) :
  hasSeparator path = false -> lastElement path = path.
Proof.
  destruct path as [| c rest]; [reflexivity |]. cbn.
  intros [Hc Hrest]%orb_false_elim. by rewrite Hrest, Hc.
Qed.

Lemma stripTrailing_id (path : string) :
  hasSeparator path = false -> stripTrailing path = path.
Proof.
  induction path as [| c rest IH]; [reflexivity |]. cbn.
  intros [Hc Hrest]%orb_false_elim. rewrite (IH Hrest), Hc.
  by destruct rest.
Qed.

Lemma Base_plain (path : string) :
  Base path = "/" \/ (hasSeparator (Base path) = false /\ Base path <> "").
Proof.
  unfold Base. destruct (decide (path = "")) as [_ | _].
  - right. by split.
  - destruct (decide (lastElement (stripTrailing path) = "")) as [_ | Hne].
    + by left.
    + right. split; [apply lastElement_plain | exact Hne].
Qed.

Lemma Base_id (path : string) :
  path <> "" -> hasSeparator path = false -> Base path = path.
Proof.
  intros Hne Hplain. unfold Base.
  destruct (decide (path = "")) as [? | _]; [done |].
  rewrite (stripTrailing_id _ Hplain), (lastElement_id _ Hplain).
  by destruct (decide (path = "")).
Qed.

Lemma elements_not_nil (path : string) : elements path <> [].
Proof.
  induction path as [| c rest IH]; [done |]. cbn.
  destruct (IsPathSeparator c); [done |].
  by destruct (elements rest).
Qed.

Lemma elements_plain (path : string) :
  hasSeparator path = false -> elements path = [path].
Proof.
  induction path as [| c rest IH]; [reflexivity |]. cbn.
  intros [Hc Hrest]%orb_false_elim. by rewrite Hc, (IH Hrest).
Qed.

Lemma elements_child (dir name : string) :
  elements (dir +:+ "/" +:+ name) = (elements dir ++ elements name)%list.
Proof.
  induction dir as [| c rest IH]; [reflexivity |].
  rewrite append_cons. cbn [elements]. rewrite IH.
  destruct (IsPathSeparator c); [reflexivity |].
  pose proof (elements_not_nil rest) as Hne.
  by destruct (elements rest).
Qed.

Lemma cleanStep_plain (rooted : bool) (out : list string) (name : string) :
  plain name -> cleanStep rooted out name = name :: out.
Proof.
  intros (_ & H0 & H1 & H2). unfold cleanStep.
  repeat case_decide; done.
Qed.

Lemma cleaned_child (dir name : string) :
  dir <> "" -> plain name ->
  cleaned (dir +:+ "/" +:+ name)
  = (isRooted dir, ((cleaned dir).2 ++ [name])%list).
Proof.
  intros Hdir Hname. unfold cleaned.
  assert (isRooted (dir +:+ "/" +:+ name) = isRooted dir) as ->
    by (by destruct dir).
  rewrite elements_child, (elements_plain name) by apply Hname.
  rewrite fold_left_app. cbn [fold_left snd].
  by rewrite (cleanStep_plain _ _ _ Hname).
Qed.

(** [Join] of a directory and a plain name is the cleaned directory with
    that one more element. *)
Lemma Join_child (dir name : string) :
  plain name ->
  Join dir name = render (isRooted dir, ((cleaned dir).2 ++ [name])%list).
Proof.
  intros Hname. pose proof Hname as (Hsep & H0 & _). unfold Join.
  destruct (decide (dir <> "")) as [Hdir | Hdir].
  - unfold Clean. by rewrite cleaned_child.
  - apply dec_stable in Hdir. subst dir.
    destruct (decide (name <> "")) as [_ | ?]; [| done].
    unfold Clean, cleaned. rewrite (elements_plain _ Hsep).
    cbn [fold_left]. rewrite (cleanStep_plain _ _ _ Hname).
    destruct (isRooted name) eqn:Hr; [| reflexivity].
    apply isRooted_hasSeparator in Hr. congruence.
Qed.

Lemma joinElements_child (elems : list string) (name : string) :
  joinElements (elems ++ [name]) = elementsPrefix elems +:+ name.
Proof.
  induction elems as [| e es IH]; [reflexivity |].
  cbn [app joinElements elementsPrefix]. rewrite !append_assoc, <- IH.
  destruct (es ++ [name])%list eqn:Hes; [by destruct es | reflexivity].
Qed.

Lemma render_child (rooted : bool) (elems : list string) (name : string) :
  render (rooted, (elems ++ [name])%list) = dirPrefix (rooted, elems) +:+ name.
Proof.
  unfold render, dirPrefix. cbn [fst snd].
  destruct rooted.
  - by rewrite joinElements_child, append_assoc.
  - change ("" +:+ elementsPrefix elems) with (elementsPrefix elems).
    rewrite <- joinElements_child. by destruct elems.
Qed.

End filepathTheory.

(** ** The disk-backed cache *)

Module fileTheory.
Import filepath filepathTheory file.

(** The name of the file of a key: [safeKey + ".cache"]. *)
Definition cacheName (key : string) : string :=
  (if decide (Base key = "." \/ Base key = "/") then "default" else Base key)
  +:+ ".cache".

(** An id without a path separator, as a UUID is. *)
Definition slash_free (id : string) : Prop := hasSeparator id = false.

(** The keys of the four shapes of the services, on such ids. *)
Inductive namespace : string -> Prop :=
| ns_item (id : string) :
    slash_free id -> namespace ("item:" +:+ id)
| ns_items : namespace "items:list"
| ns_property (itemID id : string) :
    slash_free itemID -> slash_free id ->
    namespace ("item_property:" +:+ itemID +:+ ":" +:+ id)
| ns_properties (itemID : string) :
    slash_free itemID -> namespace ("item_properties:list:" +:+ itemID).

(** An item that the encoding gives back as it was. *)
Definition json_roundtrip `{JSON cacheItem} (item : cacheItem) : Prop :=
  forall data : string, Marshal item = Ok data -> Unmarshal data = Ok item.

Lemma keyToFilename_Join (r : fileCacheRepository) (key : string) :
  keyToFilename r key = Join (cacheDir r) (cacheName key).
Proof. reflexivity. Qed.

Lemma cache_suffix_long (s : string) :
  (6 <= String.length (s +:+ ".cache"))%nat.
Proof. rewrite length_append. cbn. lia. Qed.

Lemma cacheName_plain (key : string) : plain (cacheName key).
Proof.
  unfold cacheName, plain.
  set (safeKey := if decide (Base key = "." \/ Base key = "/")
                  then "default" else Base key).
  pose proof (cache_suffix_long safeKey) as Hlen.
  repeat split.
  - rewrite hasSeparator_append. subst safeKey.
    destruct (decide (Base key = "." \/ Base key = "/")) as [_ | Hne];
      [reflexivity |].
    destruct (Base_plain key) as [Hroot | [Hplain _]]; [tauto |].
    by rewrite Hplain.
  - intros Heq. rewrite Heq in Hlen. cbn in Hlen. lia.
  - intros Heq. rewrite Heq in Hlen. cbn in Hlen. lia.
  - intros Heq. rewrite Heq in Hlen. cbn in Hlen. lia.
Qed.

(** The file of a key: the cleaned directory and one plain name more. *)
Lemma keyToFilename_child (r : fileCacheRepository) (key : string) :
  keyToFilename r key
  = render (isRooted (cacheDir r),
            ((cleaned (cacheDir r)).2 ++ [cacheName key])%list).
Proof. rewrite keyToFilename_Join. apply Join_child, cacheName_plain. Qed.

Lemma keyToFilename_prefix (r : fileCacheRepository) (key : string) :
  keyToFilename r key = dirPrefix (cleaned (cacheDir r)) +:+ cacheName key.
Proof. rewrite keyToFilename_child. apply render_child. Qed.

Lemma namespace_plain (key : string) :
  namespace key -> key <> "" /\ hasSeparator key = false /\ key <> ".".
Proof.
  unfold slash_free.
  intros [id Hid | | itemID id Hitem Hid | itemID Hitem]; repeat split;
    try discriminate; rewrite ?hasSeparator_append, ?Hitem, ?Hid; reflexivity.
Qed.

Lemma namespace_cacheName (key : string) :
  namespace key -> cacheName key = key +:+ ".cache".
Proof.
  intros (Hne & Hplain & Hdot)%namespace_plain. unfold cacheName.
  rewrite (Base_id _ Hne Hplain).
  destruct (decide (key = "." \/ key = "/")) as [[-> | ->] | _];
    [done | discriminate | reflexivity].
Qed.

Lemma namespace_collision_free (r : fileCacheRepository) (k1 k2 : string) :
  namespace k1 -> namespace k2 ->
  keyToFilename r k1 = keyToFilename r k2 -> k1 = k2.
Proof.
  intros H1 H2. rewrite !keyToFilename_prefix.
  rewrite (namespace_cacheName _ H1), (namespace_cacheName _ H2).
  intros Heq%String.app_inj. exact (append_inj_r _ _ _ Heq).
Qed.

(** C8, as the code has it. For every key the file is the cleaned storage
    directory followed by exactly one plain name: a name with no separator
    that is neither empty nor ["."] nor [".."], so the path does not leave
    the directory. The name is ["default.cache"] when the base name of the
    key is ["."] or ["/"], as for the empty key, and the base name of the
    key followed by [".cache"] otherwise. Over the four key shapes the
    mapping is collision-free when the ids contain no path separator. *)
Theorem keyToFilename_inside_directory (r : fileCacheRepository) :
  (forall key : string,
     plain (cacheName key) /\
     keyToFilename r key
     = render (isRooted (cacheDir r),
               ((cleaned (cacheDir r)).2 ++ [cacheName key])%list) /\
     (Base key = "." \/ Base key = "/" -> cacheName key = "default.cache") /\
     (~ (Base key = "." \/ Base key = "/") ->
      cacheName key = Base key +:+ ".cache")) /\
  cacheName "" = "default.cache" /\
  (forall k1 k2 : string,
     namespace k1 -> namespace k2 ->
     keyToFilename r k1 = keyToFilename r k2 -> k1 = k2).
Proof.
  split; [| split].
  - intros key. split; [apply cacheName_plain |].
    split; [apply keyToFilename_child |].
    unfold cacheName.
    split; intros Hb; by destruct (decide (Base key = "." \/ Base key = "/")).
  - reflexivity.
  - apply namespace_collision_free.
Qed.

(** The key [".."] is not given the default name, and two keys of the
    shape [item:<id>] whose ids end in the same path element share a
    file. *)
Lemma keyToFilename_counterexample :
  keyToFilename Demo.repo ".." = ".cache/...cache" /\
  keyToFilename Demo.repo ".." <> ".cache/default.cache" /\
  "item:a/x" <> "item:b/x" /\
  keyToFilename Demo.repo "item:a/x" = keyToFilename Demo.repo "item:b/x".
Proof. repeat split; (reflexivity || discriminate). Qed.

(** The files of the scenario: the key of an item, the empty key, and two
    keys of the namespace, which do not share a file. *)
Lemma keyToFilename_inside_directory_witness :
  keyToFilename Demo.repo "item:I1" = ".cache/item:I1.cache" /\
  keyToFilename Demo.repo "" = ".cache/default.cache" /\
  keyToFilename Demo.repo "item:I1" <> keyToFilename Demo.repo "items:list".
Proof.
  destruct (keyToFilename_inside_directory Demo.repo) as (Hin & _ & Hinj).
  destruct (Hin "item:I1") as (_ & Hitem & _).
  destruct (Hin "") as (_ & Hempty & _).
  split; [exact Hitem | split; [exact Hempty |]].
  intros Heq. apply Hinj in Heq; [discriminate | |].
  - apply (ns_item "I1"). reflexivity.
  - apply ns_items.
Defined.

Section Repository.
Context `{JSON cacheItem}.

Lemma Unmarshal_error (data : string) (e : error) :
  Unmarshal (A:=cacheItem) data = Err e -> exists msg : string, e = ErrJSON msg.
Proof.
  unfold Unmarshal. destruct (json_decode data); [discriminate |].
  intros [= <-]. eauto.
Qed.

(** What [Get] returns, read off the file system. *)
Lemma Get_value (r : fileCacheRepository) (key : string) (w : fs) :
  value_of (run os_handler (Get r key) w) =
  match files w !! keyToFilename r key with
  | None => Err ErrCacheKeyNotFound
  | Some Dir => Err (ErrOther "is a directory")
  | Some (File data) =>
      match Unmarshal data with
      | Err err => Err err
      | Ok item =>
          if HasExpiry item && After (clock w) (ExpiresAt item)
          then Err ErrCacheExpired
          else Ok (Value item)
      end
  end.
Proof.
  unfold Get, withRLock, value_of. cbn.
  destruct (files w !! keyToFilename r key) as [[data |] |]; cbn;
    try reflexivity.
  destruct (Unmarshal data) as [item | err]; cbn; [| reflexivity].
  destruct (HasExpiry item); cbn; [| reflexivity].
  destruct (After (clock w) (ExpiresAt item)); reflexivity.
Qed.

(** What [Exists] returns. *)
Lemma Exists_value (r : fileCacheRepository) (key : string) (w : fs) :
  value_of (run os_handler (Exists r key) w) =
  match files w !! keyToFilename r key with
  | None => Ok false
  | Some Dir => Err (ErrOther "is a directory")
  | Some (File data) =>
      match Unmarshal data with
      | Err _ => Ok false
      | Ok item =>
          Ok (negb (HasExpiry item && After (clock w) (ExpiresAt item)))
      end
  end.
Proof.
  unfold Exists, withRLock, value_of. cbn.
  destruct (files w !! keyToFilename r key) as [[data |] |]; cbn;
    try reflexivity.
  destruct (Unmarshal data) as [item | err]; cbn; [| reflexivity].
  destruct (HasExpiry item); cbn; [| reflexivity].
  destruct (After (clock w) (ExpiresAt item)); reflexivity.
Qed.

(** The item [Set] stores at the time [now]. *)
Definition stored_item (value : string) (ttl : Duration) (now : Time)
    : cacheItem :=
  if (0 <? ttl)%Z then
    {| Value := value; ExpiresAt := now + ttl; HasExpiry := true |}
  else
    {| Value := value; ExpiresAt := zeroTime; HasExpiry := false |}.

(** A [Set] that returned nil wrote the encoding of its item to the file of
    the key, and changed nothing else. *)
Lemma Set_success (r : fileCacheRepository) (key value : string)
    (ttl : Duration) (w : fs) :
  value_of (run os_handler (Set_ r key value ttl) w) = None ->
  exists data : string,
    Marshal (stored_item value ttl (clock w)) = Ok data /\
    state_of (run os_handler (Set_ r key value ttl) w)
    = with_files (<[keyToFilename r key := File data]> (files w)) w.
Proof.
  unfold Set_, withLock, value_of, state_of, stored_item.
  destruct (0 <? ttl)%Z; cbn;
    match goal with
    | |- context [Marshal ?item] => destruct (Marshal item) as [data | err]
    end; cbn; try discriminate;
    (destruct (files w !! keyToFilename r key) as [[old |] |]; cbn;
     try discriminate; intros _; by exists data).
Qed.


(** Before the expiry instant, and at it, the value is still there. *)
Lemma Get_before_expiry (r : fileCacheRepository) (key value : string)
    (ttl : Duration) (w : fs) (t0 t1 : Time) :
  0 < ttl ->
  json_roundtrip {| Value := value; ExpiresAt := t0 + ttl;
                    HasExpiry := true |} ->
  let s := run os_handler (Set_ r key value ttl) (at_time t0 w) in
  value_of s = None ->
  t1 <= t0 + ttl ->
  value_of (run os_handler (Get r key) (at_time t1 (state_of s))) = Ok value.
Proof.
  intros Httl Hjson s Hset Hearly. subst s.
  apply Set_success in Hset as (data & Hdata & ->).
  unfold stored_item in Hdata.
  apply Z.ltb_lt in Httl. rewrite Httl in Hdata.
  apply Hjson in Hdata.
  rewrite Get_value. cbn. rewrite lookup_insert_eq, Hdata. cbn.
  unfold After. apply Z.ltb_ge in Hearly. by rewrite Hearly.
Qed.

(** C7, as the code has it. [Get] fails with [ErrCacheKeyNotFound] exactly
    when the file of the key is absent, and with [ErrCacheExpired] exactly
    when the file holds a record that deserializes and whose recorded
    expiration has passed. A record that does not deserialize makes [Get]
    fail with the error of the decoder itself, which is neither of the
    two. *)
Theorem Get_not_found_semantics (r : fileCacheRepository) (key : string)
    (w : fs) :
  let filename := keyToFilename r key in
  let got := value_of (run os_handler (Get r key) w) in
  (got = Err ErrCacheKeyNotFound <-> files w !! filename = None) /\
  (got = Err ErrCacheExpired <->
   exists (data : string) (item : cacheItem),
     files w !! filename = Some (File data) /\
     Unmarshal data = Ok item /\
     HasExpiry item = true /\ ExpiresAt item < clock w) /\
  (forall (data : string) (err : error),
     files w !! filename = Some (File data) ->
     Unmarshal (A:=cacheItem) data = Err err ->
     got = Err err /\ err <> ErrCacheKeyNotFound /\ err <> ErrCacheExpired).
Proof.
  intros filename got. subst filename got. rewrite Get_value.
  split; [| split].
  - destruct (files w !! keyToFilename r key) as [[data |] |]; [| done | done].
    destruct (Unmarshal data) as [item | err] eqn:Hdata.
    + by destruct (HasExpiry item && After (clock w) (ExpiresAt item)).
    + by destruct (Unmarshal_error _ _ Hdata) as [msg ->].
  - split.
    + destruct (files w !! keyToFilename r key) as [[data |] |];
        [| done | done].
      destruct (Unmarshal data) as [item | err] eqn:Hdata.
      * destruct (HasExpiry item) eqn:Hexp; [| done]. cbn.
        unfold After. destruct (ExpiresAt item <? clock w)%Z eqn:Hlate;
          [| done].
        intros _. exists data, item. by apply Z.ltb_lt in Hlate.
      * by destruct (Unmarshal_error _ _ Hdata) as [msg ->].
    + intros (data & item & -> & -> & -> & Hlate). cbn.
      unfold After. apply Z.ltb_lt in Hlate. by rewrite Hlate.
  - intros data err -> Hdata. rewrite Hdata.
    by destruct (Unmarshal_error _ _ Hdata) as [msg ->].
Qed.

(** C10. The asymmetry of [Get] and [Exists] on a corrupt record. When the
    file of a key holds a record that does not deserialize, [Exists]
    returns false without an error, and [Get] returns the error of the
    decoder, which is neither [ErrCacheKeyNotFound] nor
    [ErrCacheExpired]. *)
Theorem corrupt_record_asymmetry (r : fileCacheRepository) (key : string)
    (w : fs) (data : string) (err : error) :
  files w !! keyToFilename r key = Some (File data) ->
  Unmarshal (A:=cacheItem) data = Err err ->
  value_of (run os_handler (Exists r key) w) = Ok false /\
  value_of (run os_handler (Get r key) w) = Err err /\
  err <> ErrCacheKeyNotFound /\ err <> ErrCacheExpired.
Proof.
  intros Hfile Hdata. rewrite Exists_value, Get_value, Hfile, Hdata.
  destruct (Unmarshal_error _ _ Hdata) as [msg ->]. by repeat split.
Qed.

End Repository.

(** *** The theorems on a disk *)

Import Demo.

(** The disk with a record under [item:I1] that is no encoding. *)
Definition corrupt_disk : fs :=
  {| files := {[ ".cache/item:I1.cache" := File "not json" ]};
     clock := 0; goroutines := [] |}.

(** On that disk [Get] returns the error of the decoder, not one of the
    two errors of an absent or expired key. *)
Lemma Get_corrupt_counterexample :
  value_of (run os_handler (Get repo "item:I1") corrupt_disk)
  = Err (ErrJSON "invalid character looking for beginning of value") /\
  value_of (run os_handler (Get repo "item:I1") corrupt_disk)
  <> Err ErrCacheKeyNotFound /\
  value_of (run os_handler (Get repo "item:I1") corrupt_disk)
  <> Err ErrCacheExpired.
Proof. vm_compute. repeat split; discriminate. Qed.

Lemma Get_not_found_semantics_witness :
  value_of (run os_handler (Get repo "item:I1") empty_disk)
  = Err ErrCacheKeyNotFound /\
  value_of (run os_handler (Get repo "item:I1") corrupt_disk)
  = Err (ErrJSON "invalid character looking for beginning of value").
Proof.
  destruct (Get_not_found_semantics repo "item:I1" empty_disk)
    as (Habsent & _).
  destruct (Get_not_found_semantics repo "item:I1" corrupt_disk)
    as (_ & _ & Hcorrupt).
  split.
  - apply Habsent. reflexivity.
  - apply (Hcorrupt "not json"); reflexivity.
Defined.

Lemma corrupt_record_asymmetry_witness :
  value_of (run os_handler (Exists repo "item:I1") corrupt_disk) = Ok false /\
  value_of (run os_handler (Get repo "item:I1") corrupt_disk)
  = Err (ErrJSON "invalid character looking for beginning of value").
Proof.
  destruct (corrupt_record_asymmetry repo "item:I1" corrupt_disk "not json"
              (ErrJSON "invalid character looking for beginning of value"))
    as (Hexists & Hget & _); [reflexivity | reflexivity |].
  by split.
Defined.


(** The goroutine that [Get] starts on an expired record removes the file
    of the key when it runs, whatever the file holds by then: when a [Set]
    of the same key comes before it, it removes the new record. *)
Example cleanup_after_Set :
  let s1 := run os_handler (Set_ repo "k" "old" (100 * Millisecond))
              empty_disk in
  let s2 := run os_handler (Get repo "k")
              (at_time (150 * Millisecond) (state_of s1)) in
  let s3 := run os_handler (Set_ repo "k" "new" 0) (state_of s2) in
  value_of s2 = Err ErrCacheExpired /\
  goroutines (state_of s2) = [".cache/k.cache"] /\
  value_of (run os_handler (Get repo "k") (state_of s3)) = Ok "new" /\
  value_of (run os_handler (Get repo "k") (run_goroutine (state_of s3)))
  = Err ErrCacheKeyNotFound.
Proof. vm_compute. repeat split; reflexivity. Qed.

(** [Delete] of a key that is absent is no error, and [Ping] succeeds on a
    disk that has the storage directory. *)
Example Delete_absent_Ping :
  value_of (run os_handler (Delete repo "non-existent-key") empty_disk)
  = None /\
  value_of (run os_handler (Ping repo) empty_disk)
  = Some (ErrNotExist ".cache") /\
  value_of (run os_handler (Ping repo)
              (state_of (run os_handler (NewCacheRepository ".cache")
                           empty_disk)))
  = None.
Proof. vm_compute. repeat split; reflexivity. Qed.

End fileTheory.

(** ** The selector of the cache backend *)

Module diTheory.
Import di.

(** The file repository on the storage directory of a configuration. *)
Definition fallback (cfg : Config) : CacheRepository :=
  FileCache {| file.cacheDir := CacheDir cfg |}.

(** What the selector does, whatever Redis and the file system answer:
    it pings once, under a timeout of 2 seconds; when the ping fails it
    makes the storage directory and returns the file repository, or the
    error of making the directory; and an error that it returns is the
    error of making the directory. *)
Definition selects (cfg : Config) (tr : trace di_resp)
    (got : result CacheRepository) : Prop :=
  omap ping_timeout tr = [2 * Second] /\
  (forall perr : error,
     omap ping_error tr = [perr] ->
     exists merr : option error,
       omap mkdir tr = [(CacheDir cfg, merr)] /\
       got = match merr with
             | None => Ok (fallback cfg)
             | Some err => Err err
             end) /\
  (forall err : error,
     got = Err err -> In (CacheDir cfg, Some err) (omap mkdir tr)).

Lemma NewCacheRepository_selects (cfg : Config) :
  every_run (NewCacheRepository cfg) (selects cfg).
Proof.
  unfold NewCacheRepository, selects. cbn.
  intros [perr |]; cbn.
  - intros [] [merr |]; cbn.
    + repeat split; [intros ? _; by eexists | intros ? [= <-]; by left].
    + intros []. repeat split; [intros ? _; by eexists | done].
  - intros []. by repeat split.
Qed.

(** C9. Startup backend selection. The selector probes Redis once, with a
    timeout of 2 seconds. When the probe fails it calls [os.MkdirAll] on the
    storage directory and returns the disk-backed cache on it, unless that
    call fails, whose error it returns; it returns no other error, so the
    failure of the probe is never returned. On the file system, with Redis
    down, the selector succeeds unless the storage path is a file, and
    leaves the storage directory in place. *)
Theorem selector_falls_back_to_disk (cfg : Config) :
  (forall (W : Type) (h : handler di_resp W) (w : W),
     let r := run h (NewCacheRepository cfg) w in
     selects cfg (trace_of r) (value_of r)) /\
  (forall (w : host) (perr : error),
     redis_down w = Some perr ->
     let r := run di_handler (NewCacheRepository cfg) w in
     match file.files (disk w) !! CacheDir cfg with
     | Some (file.File _) => value_of r = Err (ErrOther "not a directory")
     | _ =>
         value_of r = Ok (fallback cfg) /\
         file.files (disk (state_of r)) !! CacheDir cfg = Some file.Dir
     end).
Proof.
  split.
  - intros W h w.
    exact (every_run_sound h _ _ w (NewCacheRepository_selects cfg)).
  - intros w perr Hdown. unfold value_of, state_of. cbn. rewrite Hdown. cbn.
    destruct (file.files (disk w) !! CacheDir cfg) as [[data |] |] eqn:Hdir;
      cbn; [reflexivity | by split |].
    split; [reflexivity |]. by rewrite lookup_insert_eq.
Qed.

Import Demo.

(** Redis refuses the connection and the disk is empty: the selector
    returns the file repository on [".cache"], which it has made. *)
Lemma selector_falls_back_to_disk_witness :
  let w := {| redis_down := Some (ErrOther "connection refused");
              disk := empty_disk |} in
  let r := run di_handler (NewCacheRepository default_config) w in
  value_of r = Ok (FileCache repo) /\
  file.files (disk (state_of r)) !! ".cache" = Some file.Dir.
Proof.
  destruct (selector_falls_back_to_disk default_config) as [_ Hdisk].
  exact (Hdisk {| redis_down := Some (ErrOther "connection refused");
                  disk := empty_disk |}
           (ErrOther "connection refused") eq_refl).
Defined.

End diTheory.

(** ** More on the disk-backed cache *)

Module fileMore.
Import filepath filepathTheory file fileTrace fileTheory.

Section Repository.
Context `{JSON cacheItem}.

Create HintDb file_ops.
#[local] Hint Unfold Get Set_ Delete Exists withRLock withLock : file_ops.

(** Case analysis on what the calls of a method may return. *)
Ltac os_paths :=
  autounfold with file_ops;
  repeat first
    [ progress cbn in *
    | progress intros
    | match goal with
      | |- context [Marshal ?v] => destruct (Marshal v) eqn:?
      | |- context [Unmarshal ?v] => destruct (Unmarshal v) eqn:?
      | |- context [IsNotExist ?e] => destruct (IsNotExist e) eqn:?
      | |- context [HasExpiry ?i] => destruct (HasExpiry i) eqn:?
      | |- context [After ?t ?u] => destruct (After t u) eqn:?
      | |- context [(0 <? ?ttl)%Z] => destruct (0 <? ttl)%Z eqn:?
      | |- context [match ?x with _ => _ end] => is_var x; destruct x
      end ].

(** The trace of a method on [key] that holds the mutex as it should and
    names no file but the file of the key. *)
Definition disciplined (r : fileCacheRepository) (key : string) {A}
    (tr : trace os_resp) (_ : A) : Prop :=
  well_locked (os_calls tr) = true /\
  (forall filename : string,
     In (Some filename) (map touched (os_calls tr)) ->
     filename = keyToFilename r key).

(** X1. Locking discipline. Whatever the operating system answers, [Get]
    and [Exists] take the read lock first and release it last, and between
    the two make no call that changes the file system; [Set] and [Delete]
    do the same with the write lock; every call that names a file names
    the file of the key. *)
Theorem methods_well_locked (r : fileCacheRepository) (key value : string)
    (ttl : Duration) :
  always (Get r key) (disciplined r key) /\
  always (Exists r key) (disciplined r key) /\
  always (Set_ r key value ttl) (disciplined r key) /\
  always (Delete r key) (disciplined r key).
Proof.
  split; [| split; [| split]]; apply always_intro; unfold disciplined;
    os_paths; (split; [reflexivity | intuition congruence]).
Qed.

(** *** On the file system *)

(** What [Set] returns and the state it leaves. *)
Definition Set_outcome (r : fileCacheRepository) (key value : string)
    (ttl : Duration) (w : fs) : option error * fs :=
  match Marshal (stored_item value ttl (clock w)) with
  | Err err => (Some err, w)
  | Ok data =>
      match files w !! keyToFilename r key with
      | Some Dir => (Some (ErrOther "is a directory"), w)
      | _ =>
          (None,
           with_files (<[keyToFilename r key := File data]> (files w)) w)
      end
  end.

Lemma Set_run (r : fileCacheRepository) (key value : string)
    (ttl : Duration) (w : fs) :
  (value_of (run os_handler (Set_ r key value ttl) w),
   state_of (run os_handler (Set_ r key value ttl) w))
  = Set_outcome r key value ttl w.
Proof.
  unfold Set_, withLock, value_of, state_of, Set_outcome, stored_item.
  destruct (0 <? ttl)%Z; cbn;
    match goal with
    | |- context [Marshal ?item] => destruct (Marshal item) as [data | err]
    end; cbn; try reflexivity;
    by destruct (files w !! keyToFilename r key) as [[old |] |].
Qed.

Lemma Set_value (r : fileCacheRepository) (key value : string)
    (ttl : Duration) (w : fs) :
  value_of (run os_handler (Set_ r key value ttl) w)
  = (Set_outcome r key value ttl w).1.
Proof. by rewrite <- Set_run. Qed.

Lemma Set_state (r : fileCacheRepository) (key value : string)
    (ttl : Duration) (w : fs) :
  state_of (run os_handler (Set_ r key value ttl) w)
  = (Set_outcome r key value ttl w).2.
Proof. by rewrite <- Set_run. Qed.

Lemma Delete_run (r : fileCacheRepository) (key : string) (w : fs) :
  value_of (run os_handler (Delete r key) w) = None /\
  state_of (run os_handler (Delete r key) w)
  = with_files (delete (keyToFilename r key) (files w)) w.
Proof.
  unfold Delete, withLock, value_of, state_of. cbn.
  destruct (files w !! keyToFilename r key) as [n |] eqn:Hfile; cbn.
  - done.
  - split; [done |]. unfold with_files. rewrite delete_id by done.
    by destruct w.
Qed.

Lemma Exists_state (r : fileCacheRepository) (key : string) (w : fs) :
  state_of (run os_handler (Exists r key) w) = w.
Proof.
  unfold Exists, withRLock, state_of. cbn.
  destruct (files w !! keyToFilename r key) as [[data |] |]; cbn;
    try reflexivity.
  destruct (Unmarshal data) as [item | err]; cbn; [| reflexivity].
  destruct (HasExpiry item); cbn; [| reflexivity].
  destruct (After (clock w) (ExpiresAt item)); reflexivity.
Qed.

Lemma Get_state (r : fileCacheRepository) (key : string) (w : fs) :
  state_of (run os_handler (Get r key) w)
  = {| files := files w; clock := clock w;
       goroutines :=
         (goroutines w ++
          if is_expired (value_of (run os_handler (Get r key) w))
          then [keyToFilename r key] else [])%list |}.
Proof.
  rewrite Get_value. unfold Get, withRLock, state_of. cbn.
  destruct (files w !! keyToFilename r key) as [[data |] |] eqn:Hfile; cbn;
    rewrite ?app_nil_r; try by destruct w.
  destruct (Unmarshal data) as [item | err] eqn:Hdata; cbn.
  - destruct (HasExpiry item); cbn; rewrite ?app_nil_r; [| by destruct w].
    destruct (After (clock w) (ExpiresAt item)); cbn; rewrite ?app_nil_r;
      [reflexivity | by destruct w].
  - destruct (Unmarshal_error _ _ Hdata) as [msg ->]. cbn.
    rewrite app_nil_r. by destruct w.
Qed.

(** X2. [Delete] removes the entry and is idempotent. On the file system
    [Delete] returns nil whether the key was there or not, leaves no file
    for the key and changes no other file; after it [Get] fails with
    [ErrCacheKeyNotFound] and [Exists] returns false, at any time, and a
    second [Delete] returns nil again. *)
Theorem Delete_removes_key (r : fileCacheRepository) (key : string) (w : fs) :
  let s := run os_handler (Delete r key) w in
  value_of s = None /\
  files (state_of s) = delete (keyToFilename r key) (files w) /\
  (forall t : Time,
     value_of (run os_handler (Get r key) (at_time t (state_of s)))
     = Err ErrCacheKeyNotFound /\
     value_of (run os_handler (Exists r key) (at_time t (state_of s)))
     = Ok false) /\
  value_of (run os_handler (Delete r key) (state_of s)) = None.
Proof.
  cbv zeta. destruct (Delete_run r key w) as [-> ->].
  repeat split.
  - rewrite Get_value. cbn. by rewrite lookup_delete_eq.
  - rewrite Exists_value. cbn. by rewrite lookup_delete_eq.
  - apply Delete_run.
Qed.

(** X3. [Set] overwrites. After a [Set] of a key that returned nil, a
    second [Set] of the key returns what it would have returned without
    the first and, when it returns nil, leaves the state it would have
    left: nothing of the first value or of its expiration remains. *)
Theorem Set_overwrites (r : fileCacheRepository) (key : string)
    (value1 value2 : string) (ttl1 ttl2 : Duration) (w : fs) (t1 t2 : Time) :
  let s1 := run os_handler (Set_ r key value1 ttl1) (at_time t1 w) in
  value_of s1 = None ->
  let s2 := run os_handler (Set_ r key value2 ttl2)
              (at_time t2 (state_of s1)) in
  let alone := run os_handler (Set_ r key value2 ttl2) (at_time t2 w) in
  value_of s2 = value_of alone /\
  (value_of s2 = None -> state_of s2 = state_of alone).
Proof.
  cbv zeta. intros Hfirst. rewrite Set_value in Hfirst.
  rewrite !Set_value, !Set_state. unfold Set_outcome in *. cbn in *.
  destruct (Marshal (stored_item value1 ttl1 t1)) as [data1 | err1];
    [| discriminate].
  destruct (files w !! keyToFilename r key) as [[old |] |] eqn:Hfile;
    try discriminate; cbn;
    (destruct (Marshal (stored_item value2 ttl2 t2)) as [data2 | err2];
     [| done]);
    rewrite lookup_insert_eq; unfold with_files; cbn;
    by rewrite insert_insert_eq.
Qed.

(** X4. [Exists] and [Get] agree on every record that deserializes.
    [Exists] returns true exactly when [Get] returns a value; when [Exists]
    returns false, [Get] fails; and an error of [Exists] is the error of
    [Get]. *)
Theorem Exists_agrees_with_Get (r : fileCacheRepository) (key : string)
    (w : fs) :
  let exists_ := value_of (run os_handler (Exists r key) w) in
  let got := value_of (run os_handler (Get r key) w) in
  (exists_ = Ok true <-> exists value : string, got = Ok value) /\
  (exists_ = Ok false -> exists err : error, got = Err err) /\
  (forall err : error, exists_ = Err err -> got = Err err).
Proof.
  cbv zeta. rewrite Exists_value, Get_value.
  assert (forall e : error, ~ exists value : string, Err e = Ok value)
    as Hno by (by intros e [value Hv]).
  destruct (files w !! keyToFilename r key) as [[data |] |];
    [destruct (Unmarshal data) as [item | err];
     [destruct (HasExpiry item && After (clock w) (ExpiresAt item)); cbn |]
    | | ];
    (split; [split; [try done; eauto | try done; intros Hv; by apply Hno in Hv]
            | split; [try done; eauto | try done; intros ? [= <-]; done]]).
Qed.

(** X5. Reading changes no file. [Exists] leaves the state as it was.
    [Get] leaves the files and the clock as they were, and starts a
    goroutine, for the file of the key, exactly when it returns
    [ErrCacheExpired]. *)
Theorem reads_leave_files (r : fileCacheRepository) (key : string) (w : fs) :
  let got := run os_handler (Get r key) w in
  state_of (run os_handler (Exists r key) w) = w /\
  files (state_of got) = files w /\
  clock (state_of got) = clock w /\
  goroutines (state_of got)
  = (goroutines w ++
     if is_expired (value_of got) then [keyToFilename r key] else [])%list.
Proof.
  cbv zeta. rewrite Exists_state, Get_state. by repeat split.
Qed.

Lemma Set_other_file (r : fileCacheRepository) (key value : string)
    (ttl : Duration) (w : fs) (filename : string) :
  keyToFilename r key <> filename ->
  files (state_of (run os_handler (Set_ r key value ttl) w)) !! filename
  = files w !! filename.
Proof.
  intros Hne. rewrite Set_state. unfold Set_outcome.
  destruct (Marshal (stored_item value ttl (clock w))); [| done].
  destruct (files w !! keyToFilename r key) as [[old |] |]; cbn;
    by rewrite ?lookup_insert_ne.
Qed.

Lemma Set_clock (r : fileCacheRepository) (key value : string)
    (ttl : Duration) (w : fs) :
  clock (state_of (run os_handler (Set_ r key value ttl) w)) = clock w.
Proof.
  rewrite Set_state. unfold Set_outcome.
  destruct (Marshal (stored_item value ttl (clock w))); [| done].
  by destruct (files w !! keyToFilename r key) as [[old |] |].
Qed.

(** What [Get] and [Exists] of a key return depends on the file of the key
    and on the clock only. *)
Lemma reads_depend_on_file (r : fileCacheRepository) (key : string)
    (w w' : fs) :
  files w !! keyToFilename r key = files w' !! keyToFilename r key ->
  clock w = clock w' ->
  value_of (run os_handler (Get r key) w)
  = value_of (run os_handler (Get r key) w') /\
  value_of (run os_handler (Exists r key) w)
  = value_of (run os_handler (Exists r key) w').
Proof.
  intros Hfile Hclock. by rewrite !Get_value, !Exists_value, Hfile, Hclock.
Qed.

(** X6. Keys with different files do not interfere. When the files of two
    keys differ, which they do for two different keys of the four shapes
    on ids without a path separator, neither a [Set] nor a [Delete] of the
    one changes what [Get] and [Exists] return for the other, at any
    time. *)
Theorem keys_do_not_interfere (r : fileCacheRepository) (key other : string)
    (value : string) (ttl : Duration) (w : fs) (t : Time) :
  (keyToFilename r key <> keyToFilename r other \/
   (namespace key /\ namespace other /\ key <> other)) ->
  let after_set := state_of (run os_handler (Set_ r key value ttl) w) in
  let after_delete := state_of (run os_handler (Delete r key) w) in
  (value_of (run os_handler (Get r other) (at_time t after_set))
   = value_of (run os_handler (Get r other) (at_time t w)) /\
   value_of (run os_handler (Exists r other) (at_time t after_set))
   = value_of (run os_handler (Exists r other) (at_time t w))) /\
  (value_of (run os_handler (Get r other) (at_time t after_delete))
   = value_of (run os_handler (Get r other) (at_time t w)) /\
   value_of (run os_handler (Exists r other) (at_time t after_delete))
   = value_of (run os_handler (Exists r other) (at_time t w))).
Proof.
  intros Hkeys. cbv zeta.
  assert (keyToFilename r key <> keyToFilename r other) as Hne.
  { destruct Hkeys as [Hne | (Hkey & Hother & Hne)]; [exact Hne |].
    intros Heq. by apply Hne, (namespace_collision_free r). }
  split; apply reads_depend_on_file; try reflexivity.
  - change (files (state_of (run os_handler (Set_ r key value ttl) w))
            !! keyToFilename r other = files w !! keyToFilename r other).
    by apply Set_other_file.
  - destruct (Delete_run r key w) as [_ Hstate]. rewrite Hstate. cbn.
    by rewrite lookup_delete_ne.
Qed.


(** X8. The cleanup after an expired [Get]. When no goroutine waits and
    [Get] returns [ErrCacheExpired], the goroutine it started, once it has
    run, has removed the file of the key and no other file; then [Get]
    fails with [ErrCacheKeyNotFound]. *)
Theorem cleanup_removes_expired (r : fileCacheRepository) (key : string)
    (w : fs) :
  goroutines w = [] ->
  value_of (run os_handler (Get r key) w) = Err ErrCacheExpired ->
  let cleaned := run_goroutine (state_of (run os_handler (Get r key) w)) in
  files cleaned = delete (keyToFilename r key) (files w) /\
  goroutines cleaned = [] /\
  value_of (run os_handler (Get r key) cleaned) = Err ErrCacheKeyNotFound.
Proof.
  intros Hidle Hexpired. cbv zeta.
  rewrite Get_state, Hexpired, Hidle. unfold run_goroutine.
  cbn [goroutines is_expired app files clock].
  split; [reflexivity | split; [reflexivity |]].
  rewrite Get_value. cbn [files clock]. by rewrite lookup_delete_eq.
Qed.

End Repository.


(** *** The theorems on a disk *)

Import Demo.

(** The disk after [Set] of [ttl-key] for 100 milliseconds at time 0. *)
Definition ttl_disk : fs :=
  state_of (run os_handler (Set_ repo "ttl-key" "ttl-value" (100 * Millisecond))
              empty_disk).

Lemma Set_overwrites_witness :
  let s1 := run os_handler (Set_ repo "overwrite-key" "initial-value" 0)
              empty_disk in
  let s2 := run os_handler (Set_ repo "overwrite-key" "new-value" 0)
              (state_of s1) in
  let alone := run os_handler (Set_ repo "overwrite-key" "new-value" 0)
                 empty_disk in
  value_of s2 = value_of alone /\ state_of s2 = state_of alone.
Proof.
  destruct (Set_overwrites repo "overwrite-key" "initial-value" "new-value"
              0 0 empty_disk 0 0) as [Hvalue Hstate]; [reflexivity |].
  split; [exact Hvalue | apply Hstate; reflexivity].
Defined.

Lemma keys_do_not_interfere_witness :
  let after_set :=
    state_of (run os_handler (Set_ repo "item:I1" "x" 0) ttl_disk) in
  value_of (run os_handler (Get repo "items:list") (at_time 5 after_set))
  = value_of (run os_handler (Get repo "items:list") (at_time 5 ttl_disk)).
Proof.
  apply (keys_do_not_interfere repo "item:I1" "items:list" "x" 0 ttl_disk 5).
  right. split; [| split; [| discriminate]].
  - apply (ns_item "I1"). reflexivity.
  - apply ns_items.
Defined.


Lemma cleanup_removes_expired_witness :
  let late := at_time (150 * Millisecond) ttl_disk in
  let cleaned :=
    run_goroutine (state_of (run os_handler (Get repo "ttl-key") late)) in
  files cleaned = delete (keyToFilename repo "ttl-key") (files late) /\
  goroutines cleaned = [] /\
  value_of (run os_handler (Get repo "ttl-key") cleaned)
  = Err ErrCacheKeyNotFound.
Proof.
  apply (cleanup_removes_expired repo "ttl-key"
           (at_time (150 * Millisecond) ttl_disk)); reflexivity.
Defined.

End fileMore.

(** ** More on the entity services *)

Module ServiceMore.
Import Service ServiceTheory ServiceTrace.

Section Props.
Context `{JSON Item.t, JSON (list Item.t)}.
Context `{JSON ItemProperty.t, JSON (list ItemProperty.t)}.

(** What a read of the entity under [key] does to the cache: it gets the
    key; when it returns an entity of the store, it then sets the key to
    the JSON of that entity for 5 minutes, unless [json.Marshal] failed;
    it makes no other cache call. *)
Definition populates {A} `{JSON A} (key : string) (sc : svc_call)
    (tr : trace svc_resp) (got : result A) : Prop :=
  match got with
  | Ok v =>
      (store_calls tr = [] /\ cache_calls tr = [CacheGet key]) \/
      (store_calls tr = [sc] /\
       cache_calls tr
       = CacheGet key ::
         match Marshal v with
         | Ok data => [CacheSet key data (5 * Minute)]
         | Err _ => []
         end)
  | Err _ => store_calls tr = [sc] /\ cache_calls tr = [CacheGet key]
  end.

Ltac populates_proof :=
  apply always_intro; autounfold with svc_ops; unfold populates; paths;
  simplify_eq; first [by left | by right | done].

(** X10. Population on a miss. Each read gets its key and, when the store
    answered, sets the same key to the JSON of the entity it returns, with
    a TTL of 5 minutes; when the store failed or the entity does not
    serialize it sets nothing. A read makes no other cache call: it never
    deletes a key. *)
Theorem reads_populate_their_key :
  always GetAllItems (populates "items:list" ItemRepoGetAll) /\
  (forall id : string,
     always (GetItemByID id)
       (populates ("item:" +:+ id) (ItemRepoGetByID id))) /\
  (forall itemID : string,
     always (GetItemPropertiesByItemID itemID)
       (populates ("item_properties:list:" +:+ itemID)
          (PropRepoGetAllByItemID itemID))) /\
  (forall itemID id : string,
     always (GetItemPropertyByID itemID id)
       (populates ("item_property:" +:+ itemID +:+ ":" +:+ id)
          (PropRepoGetByID itemID id))).
Proof.
  split; [| split; [| split]]; intros; populates_proof.
Qed.

Lemma reports_error (err : error) : reports (Error err) err.
Proof. by exists "". Qed.

Lemma reports_append (text msg : string) (err : error) :
  reports msg err -> reports (text +:+ msg) err.
Proof.
  intros [text' ->]. exists (text +:+ text').
  by rewrite filepathTheory.append_assoc.
Qed.

(** After the first [skip] messages, a trace logs one message for each
    cache [Set] or [Delete] that failed, in their order, with the text of
    the error, and nothing else. *)
Definition failures_logged {A} (skip : nat) (tr : trace svc_resp) (_ : A)
    : Prop :=
  Forall2 reports (drop skip (logs tr)) (cache_write_errors tr).

Ltac logged_proof :=
  apply always_intro; autounfold with svc_ops; unfold failures_logged; paths;
  repeat first
    [ apply Forall2_nil_2
    | apply Forall2_cons_2; [repeat apply reports_append; apply reports_error |] ].

(** X11. Cache failures are logged. In every operation each cache [Set] or
    [Delete] that fails is followed by one log message that ends with the
    text of its error; beyond that a write logs nothing, and a read logs
    only its first message, the hit or the miss. *)
Theorem cache_write_failures_are_logged :
  always GetAllItems (failures_logged 1) /\
  (forall id, always (GetItemByID id) (failures_logged 1)) /\
  (forall itemID,
     always (GetItemPropertiesByItemID itemID) (failures_logged 1)) /\
  (forall itemID id,
     always (GetItemPropertyByID itemID id) (failures_logged 1)) /\
  (forall item, always (CreateItem item) (failures_logged 0)) /\
  (forall item, always (UpdateItem item) (failures_logged 0)) /\
  (forall id, always (DeleteItem id) (failures_logged 0)) /\
  (forall itemProperty,
     always (CreateItemProperty itemProperty) (failures_logged 0)) /\
  (forall itemProperty,
     always (UpdateItemProperty itemProperty) (failures_logged 0)) /\
  (forall itemID id,
     always (DeleteItemProperty itemID id) (failures_logged 0)).
Proof.
  repeat match goal with |- _ /\ _ => split end; intros; logged_proof.
Qed.

(** Every cache key of a trace has one of the four shapes, on ids without
    a path separator. *)
Definition keys_in_namespace {A} (tr : trace svc_resp) (_ : A) : Prop :=
  forall key : string,
    In (Some key) (map cache_key (calls tr)) -> fileTheory.namespace key.

Ltac namespace_proof :=
  apply always_intro; autounfold with svc_ops; unfold keys_in_namespace;
  paths;
  repeat match goal with
    | Hin : _ \/ _ |- _ => destruct Hin
    | Hin : False |- _ => destruct Hin
    end;
  simplify_eq;
  first [ by apply fileTheory.ns_item
        | apply fileTheory.ns_items
        | by apply fileTheory.ns_property
        | by apply fileTheory.ns_properties ].

(** X12. The keys of the services. When the ids it is given contain no path
    separator, every cache key an operation gets, sets or deletes has one
    of the four shapes; so two different keys of any two such runs are
    kept in different files by the disk-backed cache. *)
Theorem service_keys_in_namespace :
  let plain_id := fileTheory.slash_free in
  (always GetAllItems keys_in_namespace /\
   (forall id, plain_id id -> always (GetItemByID id) keys_in_namespace) /\
   (forall item, always (CreateItem item) keys_in_namespace) /\
   (forall item,
      plain_id (Item.ID item) -> always (UpdateItem item) keys_in_namespace) /\
   (forall id, plain_id id -> always (DeleteItem id) keys_in_namespace) /\
   (forall itemID,
      plain_id itemID ->
      always (GetItemPropertiesByItemID itemID) keys_in_namespace) /\
   (forall itemID id,
      plain_id itemID -> plain_id id ->
      always (GetItemPropertyByID itemID id) keys_in_namespace) /\
   (forall p,
      plain_id (ItemProperty.ItemID p) ->
      always (CreateItemProperty p) keys_in_namespace) /\
   (forall p,
      plain_id (ItemProperty.ItemID p) -> plain_id (ItemProperty.ID p) ->
      always (UpdateItemProperty p) keys_in_namespace) /\
   (forall itemID id,
      plain_id itemID -> plain_id id ->
      always (DeleteItemProperty itemID id) keys_in_namespace)) /\
  (forall (r : file.fileCacheRepository) (tr1 tr2 : trace svc_resp)
          (key1 key2 : string),
     keys_in_namespace tr1 tt -> keys_in_namespace tr2 tt ->
     In (Some key1) (map cache_key (calls tr1)) ->
     In (Some key2) (map cache_key (calls tr2)) ->
     file.keyToFilename r key1 = file.keyToFilename r key2 -> key1 = key2).
Proof.
  cbv zeta. split.
  - repeat match goal with |- _ /\ _ => split end; intros; namespace_proof.
  - intros r tr1 tr2 key1 key2 Hns1 Hns2 Hin1 Hin2.
    apply fileTheory.namespace_collision_free; auto.
Qed.

End Props.

(** *** The services on the disk-backed cache *)

Lemma run_invariant {C} {R : C -> Type} {A W} (h : handler R W)
    (Inv : W -> Prop) :
  (forall (c : C) (w : W), Inv w -> Inv (h c w).2) ->
  forall (p : prog R A) (w : W), Inv w -> Inv (state_of (run h p w)).
Proof.
  intros Hstep p. induction p as [a | c k IH]; intros w Hw; [exact Hw |].
  apply (IH _ _ (Hstep c w Hw)).
Qed.

(** The state in which the last call of a run was made, when that call is a
    [Set] that returned nil. *)
Lemma run_last_set {A W} (h : handler svc_resp W) (Inv : W -> Prop)
    (p : svc A) (w : W) (key data : string) (ttl : Duration) :
  (forall (c : svc_call) (w : W), Inv w -> Inv (h c w).2) ->
  Inv w ->
  last (trace_of (run h p w)) ≫= populated_for = Some (key, data, ttl) ->
  exists w' : W,
    Inv w' /\ h (CacheSet key data ttl) w' = (None, state_of (run h p w)).
Proof.
  intros Hstep. revert w.
  induction p as [a | c k IH]; intros w Hw; [discriminate |].
  change (trace_of (run h (Vis c k) w))
    with (existT c (h c w).1 :: trace_of (run h (k (h c w).1) (h c w).2)).
  change (state_of (run h (Vis c k) w))
    with (state_of (run h (k (h c w).1) (h c w).2)).
  destruct (trace_of (run h (k (h c w).1) (h c w).2)) as [| ev tr] eqn:Htr.
  - rewrite (trace_nil_state _ _ _ Htr). cbn.
    destruct c; try discriminate. cbn.
    match goal with
    | |- context [h ?c w] => destruct (h c w) as [[e |] w'] eqn:Hh
    end; cbn; [discriminate |].
    intros [= -> -> ->]. eauto.
  - rewrite last_cons. rewrite <- Htr.
    destruct (last (trace_of (run h (k (h c w).1) (h c w).2))) eqn:Hl.
    + rewrite <- Hl. apply IH, Hstep, Hw.
    + rewrite Htr in Hl. by rewrite last_cons in Hl; destruct (last tr).
Qed.

Section OnDisk.
Context `{JSON file.cacheItem}.
Context {W : Type} (r : file.fileCacheRepository) (store : handler svc_resp W).

(** The services never move the clock of the disk. *)
Lemma on_disk_clock (c : svc_call) (dw : file.fs * W) :
  file.clock ((on_disk r store c dw).2).1 = file.clock dw.1.
Proof.
  destruct c; try reflexivity;
    unfold on_disk; cbv beta iota zeta; cbn [fst snd].
  - by rewrite fileMore.Get_state.
  - apply fileMore.Set_clock.
  - by destruct (fileMore.Delete_run r key dw.1) as [_ ->].
Qed.

(** What the disk-backed cache answers to [Get] after a [Set] of the key
    that returned nil: the value up to the expiry instant,
    [ErrCacheExpired] after it. *)
Lemma on_disk_get_after_set (key data : string) (ttl : Duration)
    (dw dw' : file.fs * W) (t : Time) :
  (forall item : file.cacheItem, fileTheory.json_roundtrip item) ->
  0 < ttl ->
  on_disk r store (CacheSet key data ttl) dw = (None, dw') ->
  (on_disk r store (CacheGet key) (on_disk_at t dw')).1
  = if (file.clock dw.1 + ttl <? t)%Z then Err ErrCacheExpired else Ok data.
Proof.
  intros Hjson Httl.
  unfold on_disk, on_disk_at; cbv beta iota zeta; cbn [fst snd].
  intros [Hset <-]%pair_equal_spec. cbn [fst snd].
  apply fileTheory.Set_success in Hset as (stored & Hstored & ->).
  apply Hjson in Hstored.
  rewrite fileTheory.Get_value. cbn. rewrite lookup_insert_eq, Hstored.
  unfold fileTheory.stored_item.
  apply Z.ltb_lt in Httl. rewrite Httl. reflexivity.
Qed.

(** A read on the disk-backed cache, after a first run that ended by
    setting [data] under its key for 5 minutes: a second run at the time
    [t] is served from the cache without a store call when [t] is not after
    the expiry instant, and calls the store again when it is. *)
Definition served_until_expiry {A} `{JSON A} (p : svc (result A))
    (key : string) (sc : svc_call) (get : svc_resp sc -> result A) : Prop :=
  forall (dw : file.fs * W) (data : string) (v : A) (t : Time),
    (forall item : file.cacheItem, fileTheory.json_roundtrip item) ->
    let first := run (on_disk r store) p dw in
    last (trace_of first) ≫= populated_for = Some (key, data, 5 * Minute) ->
    data <> "" -> Unmarshal data = Ok v ->
    let second :=
      run (on_disk r store) p (on_disk_at t (state_of first)) in
    (t <= file.clock dw.1 + 5 * Minute ->
     value_of second = Ok v /\ store_calls (trace_of second) = []) /\
    (file.clock dw.1 + 5 * Minute < t ->
     exists x : svc_resp sc,
       store_events (trace_of second) = [existT sc x] /\
       value_of second = get x).

Lemma read_served_until_expiry {A} `{JSON A} (p : svc (result A))
    (key : string) (sc : svc_call) (get : svc_resp sc -> result A) :
  cache_aside_read p key sc get -> served_until_expiry p key sc get.
Proof.
  intros Hread dw data v t Hjson first Hlast Hdata Hv second.
  subst first second.
  apply (run_last_set (on_disk r store)
           (fun s => file.clock s.1 = file.clock dw.1)) in Hlast
    as (dw' & Hclock & Hset);
    [| intros c s Hs; by rewrite on_disk_clock | reflexivity].
  pose proof (on_disk_get_after_set key data (5 * Minute) dw' _ t Hjson
                eq_refl Hset) as Hget.
  rewrite Hclock in Hget.
  destruct (Hread _ (on_disk r store)
              (on_disk_at t (state_of (run (on_disk r store) p dw))))
    as [Hhit Hmiss].
  revert Hget. case Z.ltb_spec; intros Hcmp Hget.
  - split; intros Ht; [lia |].
    apply Hmiss. intros v' (s & Hs & _). congruence.
  - split; intros Ht; [| lia].
    apply Hhit. by exists data.
Qed.

Context `{JSON Item.t, JSON (list Item.t)}.
Context `{JSON ItemProperty.t, JSON (list ItemProperty.t)}.


End OnDisk.

(** *** The theorems on the store in memory and the disk *)

Import Demo.

Lemma dec_pos_enc_pos (p : positive) (rest : string) :
  dec_pos (enc_pos p +:+ rest) = Some (p, rest).
Proof.
  induction p as [p IH | p IH |]; cbn [enc_pos];
    rewrite filepathTheory.append_cons; cbn [dec_pos];
    [by rewrite IH | by rewrite IH | reflexivity].
Qed.

Lemma dec_Z_enc_Z (z : Z) (rest : string) :
  dec_Z (enc_Z z +:+ rest) = Some (z, rest).
Proof.
  destruct z as [| p | p]; cbn [enc_Z];
    rewrite filepathTheory.append_cons; cbn [dec_Z];
    [reflexivity | by rewrite dec_pos_enc_pos | by rewrite dec_pos_enc_pos].
Qed.

(** The encoding of [cacheItem] gives every item back. *)
Lemma json_cacheItem_roundtrip (item : file.cacheItem) :
  fileTheory.json_roundtrip item.
Proof.
  intros data. unfold Marshal, Unmarshal.
  cbn [json_encode json_decode json_cacheItem]. intros [= <-].
  destruct item as [value expires [|]];
    cbn [file.HasExpiry file.ExpiresAt file.Value];
    by rewrite dec_Z_enc_Z.
Qed.

(** The id of the scenario has no path separator: the keys of the read
    of [I1] and of the update of the widget have the four shapes. *)
Lemma service_keys_in_namespace_witness :
  Forall fileTheory.namespace
    (omap cache_key
       (calls (trace_of (run handle (GetItemByID "I1") start)) ++
        calls (trace_of (run handle (UpdateItem widget2) start)))%list).
Proof.
  destruct service_keys_in_namespace as [(_ & Hread & _ & Hupdate & _) _].
  pose proof (Hread "I1" eq_refl world handle start) as Hkeys1.
  pose proof (Hupdate widget2 eq_refl world handle start) as Hkeys2.
  vm_compute.
  repeat (apply List.Forall_cons;
          [first [ apply Hkeys1; vm_compute; tauto
                 | apply Hkeys2; vm_compute; tauto ] |]).
  apply List.Forall_nil.
Defined.


End ServiceMore.

(** ** More on the selector and the configuration *)

Module diMore.
Import di diTrace config.

(** What the selector does when Redis answers the ping, and whom it
    pings. *)
Definition selects_redis (cfg : Config) (tr : trace di_resp)
    (got : result CacheRepository) : Prop :=
  omap ping_target (di_calls tr)
  = [(RedisHost cfg +:+ ":" +:+ RedisPort cfg, RedisPassword cfg, 0)] /\
  (omap ping_error tr = [] ->
   got = Ok (RedisCache (RedisHost cfg +:+ ":" +:+ RedisPort cfg)
               (RedisPassword cfg) 0) /\
   omap os_call_of (di_calls tr) = [] /\
   omap printed (di_calls tr)
   = ["Connected to Redis at " +:+ RedisHost cfg +:+ ":" +:+ RedisPort cfg]).

(** X14. The selector when Redis is reachable. The selector pings the
    address [host:port] of the configuration, with its password, on
    database 0; when the ping succeeds it returns the Redis repository on
    that client and makes no call to the file system: the storage
    directory is not created. *)
Theorem selector_keeps_redis (cfg : Config) :
  always (NewCacheRepository cfg) (selects_redis cfg).
Proof.
  apply always_intro. unfold NewCacheRepository, selects_redis. cbn.
  intros [perr |]; cbn.
  - intros [] [merr |]; cbn; [by split |]. intros []. by split.
  - intros []. by repeat split.
Qed.

(** The variables [LoadConfig] reads into a string field, each with the
    field and its default. *)
Definition string_variables : list (string * (Config -> string) * string) :=
  [("DB_USER", DBUser, "root"); ("DB_PASS", DBPass, "root");
   ("DB_HOST", DBHost, "127.0.0.1"); ("DB_PORT", DBPort, "3306");
   ("DB_NAME", DBName, "test"); ("REDIS_HOST", RedisHost, "127.0.0.1");
   ("REDIS_PORT", RedisPort, "6379"); ("REDIS_PASSWORD", RedisPassword, "");
   ("CACHE_DIR", CacheDir, ".cache")].

Definition variable_names : list string :=
  "LOGGING_LEVEL" :: map (fun v => v.1.1) string_variables.

Lemma getEnv_insert_ne (env : environ) (name key value fallback : string) :
  name <> key -> getEnv (<[name := value]> env) key fallback
                 = getEnv env key fallback.
Proof. intros Hne. unfold getEnv. by rewrite lookup_insert_ne. Qed.

Lemma getEnvInt_insert_ne (env : environ) (name key value : string)
    (fallback : Z) :
  name <> key -> getEnvInt (<[name := value]> env) key fallback
                 = getEnvInt env key fallback.
Proof. intros Hne. unfold getEnvInt. by rewrite lookup_insert_ne. Qed.

Lemma Atoi_in_range (s : string) (n : Z) :
  Atoi s = Ok n -> - 2 ^ 63 <= n <= 2 ^ 63 - 1.
Proof.
  unfold Atoi.
  destruct (match s with
            | String "-" rest => option_map Z.opp (unsigned rest)
            | String "+" rest => unsigned rest
            | _ => unsigned s
            end) as [m |]; [| discriminate].
  destruct (- 2 ^ 63 <=? m)%Z eqn:Hlo; [| discriminate].
  destruct (m <=? 2 ^ 63 - 1)%Z eqn:Hhi; [| discriminate].
  intros [= <-]. apply Z.leb_le in Hlo, Hhi. lia.
Qed.

(** X15. The configuration. Every string field of the loaded
    configuration is the value of its variable when the variable is set,
    the empty string included, and its default otherwise. [LoggingLevel]
    is the number in [LOGGING_LEVEL] when that is an optional sign and
    decimal digits that fit in 64 bits, and 3 otherwise; so it is always a
    64-bit integer. A variable that is not one of the ten does not change
    the configuration. *)
Theorem LoadConfig_reads_its_variables (env : environ) :
  (forall (name : string) (field : Config -> string) (default : string),
     In (name, field, default) string_variables ->
     field (LoadConfig env) = match env !! name with
                              | Some value => value
                              | None => default
                              end) /\
  LoggingLevel (LoadConfig env)
  = match env !! "LOGGING_LEVEL" ≫= (fun value =>
            match Atoi value with Ok n => Some n | Err _ => None end) with
    | Some n => n
    | None => 3
    end /\
  - 2 ^ 63 <= LoggingLevel (LoadConfig env) <= 2 ^ 63 - 1 /\
  (forall name value : string,
     ~ In name variable_names ->
     LoadConfig (<[name := value]> env) = LoadConfig env).
Proof.
  split; [| split; [| split]].
  - intros name field default Hin. cbn in Hin.
    repeat destruct Hin as [[= <- <- <-] | Hin]; try reflexivity.
    destruct Hin.
  - cbn. unfold getEnvInt.
    destruct (env !! "LOGGING_LEVEL") as [value |]; [| reflexivity]. cbn.
    by destruct (Atoi value).
  - cbn. unfold getEnvInt.
    destruct (env !! "LOGGING_LEVEL") as [value |]; [| lia].
    destruct (Atoi value) as [n |] eqn:Hvalue; [| lia].
    by apply Atoi_in_range in Hvalue.
  - intros name value Hname. unfold LoadConfig.
    rewrite getEnvInt_insert_ne by (intros ->; apply Hname; cbn; tauto).
    rewrite !getEnv_insert_ne; [reflexivity | ..];
      intros ->; apply Hname; cbn; tauto.
Qed.

(** With no variable set: the address the selector pings and the
    directory it falls back to. *)
Example default_selection :
  GetRedisAddr (LoadConfig ∅) = "127.0.0.1:6379" /\
  CacheDir (LoadConfig ∅) = ".cache" /\
  LoadConfig ∅ = Demo.default_config /\
  GetMySQLDSN (LoadConfig ∅)
  = "root:root@tcp(127.0.0.1:3306)/test?charset=utf8mb4&parseTime=True&loc=Local".
Proof. repeat split; reflexivity. Qed.

Example Atoi_examples :
  Atoi "42" = Ok 42 /\ Atoi "-7" = Ok (-7) /\ Atoi "+7" = Ok 7 /\
  Atoi "007" = Ok 7 /\ Atoi "" = Err (ErrOther "strconv.Atoi: invalid syntax") /\
  Atoi "-" = Err (ErrOther "strconv.Atoi: invalid syntax") /\
  Atoi " 1" = Err (ErrOther "strconv.Atoi: invalid syntax") /\
  Atoi "1_0" = Err (ErrOther "strconv.Atoi: invalid syntax") /\
  Atoi "9223372036854775807" = Ok 9223372036854775807 /\
  Atoi "9223372036854775808"
  = Err (ErrOther "strconv.Atoi: value out of range") /\
  Atoi "-9223372036854775808" = Ok (-9223372036854775808).
Proof. repeat split; reflexivity. Qed.

End diMore.

(** Case analysis on a membership in a list that is known, and the search
    for a member. *)
Ltac split_in :=
  repeat match goal with
    | H : _ \/ _ |- _ => destruct H
    | H : False |- _ => destruct H
    | H : In _ [] |- _ => destruct H
    | H : In _ (_ :: _) |- _ => destruct H
    end.

Ltac in_list :=
  solve [cbn; repeat first [left; reflexivity | right]].

(** ** Properties of the HTTP layer *)

Module httpMore.
Import gin ginTrace.

(** A program that makes no call at all, whatever it is run against. *)
Definition silent (p : handler_func) : Prop :=
  always p (fun tr _ => tr = []).

(** A program that prints one line and makes no other call. *)
Definition prints (p : handler_func) (format : string) (args : list string)
    : Prop :=
  always p (fun tr _ => gin_calls tr = [LogPrintf format args]).

(** An implementation of the interface, to run a handler against. *)
Definition idle : handler gin_resp unit :=
  fun c _ =>
    (match c return gin_resp c with
     | Param _ | Query _ | GetHeader _ | ReadAllBody | UuidNew => ""
     | SetBody _ | JSON _ _ | Status _ | Header _ _ | Abort | Next
     | LogPrintf _ _ => tt
     | UnmarshalItem => Err (ErrOther "EOF")
     | UnmarshalProperty => Err (ErrOther "EOF")
     | MarshalPayload _ => None
     | TimeNow => 0
     | ValidateItem _ | ValidateProperty _ => []
     | SvcGetAllItems _ => Ok []
     | SvcGetItemByID _ _ => Err (ErrOther "record not found")
     | SvcCreateItem _ | SvcUpdateItem _ | SvcDeleteItem _ => None
     | SvcGetItemPropertiesByItemID _ => Ok []
     | SvcGetItemPropertyByID _ _ => Err (ErrOther "record not found")
     | SvcCreateItemProperty _ | SvcUpdateItemProperty _
     | SvcDeleteItemProperty _ _ => None
     end, tt).

Lemma prints_not_silent (p : handler_func) format args :
  prints p format args -> ~ silent p.
Proof.
  intros Hp Hs. specialize (Hs unit idle tt). specialize (Hp unit idle tt).
  cbv beta in *. rewrite Hs in Hp. discriminate.
Qed.

Lemma level_prints (level own : Z) (tag format : string) (args : list string) :
  let p : handler_func :=
    if (own <=? level)%Z then call (LogPrintf (tag +:+ format) args)
    else mret tt in
  (own <= level -> prints p (tag +:+ format) args) /\
  (level < own -> silent p).
Proof.
  cbv zeta. split; intros Hl.
  - apply Z.leb_le in Hl. rewrite Hl. by intros W h w.
  - apply Z.leb_gt in Hl. rewrite Hl. by intros W h w.
Qed.

(** X16. The levels of the logger nest. Each of [Error], [Warn], [Info]
    and [Debug] either makes no call at all or prints exactly one line,
    its format behind the tag of the method and its arguments as they are;
    and a logger that prints at a level prints at every less verbose one:
    [Debug] lines imply [Info] lines, those [Warn] lines, those [Error]
    lines. *)
Theorem log_levels_nest (l : logging.LoggingService) (format : string)
    (args : list string) :
  let tagged (p : handler_func) (tag : string) :=
    silent p \/ prints p (tag +:+ format) args in
  tagged (logging.Error l format args) "[ERROR] " /\
  tagged (logging.Warn l format args) "[WARN] " /\
  tagged (logging.Info l format args) "[INFO] " /\
  tagged (logging.Debug l format args) "[DEBUG] " /\
  (~ silent (logging.Debug l format args) ->
   ~ silent (logging.Info l format args)) /\
  (~ silent (logging.Info l format args) ->
   ~ silent (logging.Warn l format args)) /\
  (~ silent (logging.Warn l format args) ->
   ~ silent (logging.Error l format args)).
Proof.
  cbv zeta.
  pose proof (level_prints (logging.level l) logging.LevelError "[ERROR] "
                format args) as [He1 He2].
  pose proof (level_prints (logging.level l) logging.LevelWarn "[WARN] "
                format args) as [Hw1 Hw2].
  pose proof (level_prints (logging.level l) logging.LevelInfo "[INFO] "
                format args) as [Hi1 Hi2].
  pose proof (level_prints (logging.level l) logging.LevelDebug "[DEBUG] "
                format args) as [Hd1 Hd2].
  fold (logging.Error l format args) in He1, He2.
  fold (logging.Warn l format args) in Hw1, Hw2.
  fold (logging.Info l format args) in Hi1, Hi2.
  fold (logging.Debug l format args) in Hd1, Hd2.
  unfold logging.LevelError, logging.LevelWarn, logging.LevelInfo,
    logging.LevelDebug in *.
  assert (Hcase : forall own : Z, logging.level l < own \/ own <= logging.level l)
    by (intros; lia).
  repeat match goal with |- _ /\ _ => split end.
  - destruct (Hcase 1); auto.
  - destruct (Hcase 2); auto.
  - destruct (Hcase 3); auto.
  - destruct (Hcase 4); auto.
  - intros Hd. destruct (Hcase 4) as [H4 | H4]; [by destruct Hd; auto |].
    eapply prints_not_silent, Hi1. lia.
  - intros Hi. destruct (Hcase 3) as [H3 | H3]; [by destruct Hi; auto |].
    eapply prints_not_silent, Hw1. lia.
  - intros Hw. destruct (Hcase 2) as [H2 | H2]; [by destruct Hw; auto |].
    eapply prints_not_silent, He1. lia.
Qed.

(** X17. Request bodies and the environment. For the logger built from the
    configuration of any environment, [LogRequest] reads the body of the
    request only when [LOGGING_LEVEL] is set to an integer of at least 4:
    it then reads it once, prints what it read behind the debug tag and
    puts back exactly what it read. In every other environment (the
    variable unset, not an integer, or smaller) it makes no call at all;
    the level of an environment that does not set the variable is 3. *)
Theorem LogRequest_reads_the_body_only_at_debug (env : config.environ) :
  let level := config.getEnvInt env "LOGGING_LEVEL" 3 in
  let l := logging.NewLoggingService (config.LoadConfig env) in
  (4 <= level ->
   always (logging.LogRequest l) (fun tr _ =>
     exists body : string,
       tr = [existT ReadAllBody body;
             existT (LogPrintf "[DEBUG] Request Body: %s" [body]) tt;
             existT (SetBody body) tt])) /\
  (level < 4 -> silent (logging.LogRequest l)) /\
  (4 <= level <->
   exists value n, env !! "LOGGING_LEVEL" = Some value /\
                   config.Atoi value = Ok n /\ 4 <= n) /\
  (env !! "LOGGING_LEVEL" = None -> level = 3).
Proof.
  cbv zeta. unfold logging.LogRequest, logging.NewLoggingService.
  cbn [logging.level config.LoadConfig di.LoggingLevel].
  unfold logging.LevelDebug.
  repeat match goal with |- _ /\ _ => split end.
  - intros Hl. apply Z.leb_le in Hl. rewrite Hl. intros W h w. cbn.
    destruct (h ReadAllBody w) as [body w1]. cbn.
    destruct (h (LogPrintf _ _) w1) as [[] w2]. cbn.
    destruct (h (SetBody _) w2) as [[] w3]. cbn. by exists body.
  - intros Hl. apply Z.leb_gt in Hl. rewrite Hl. by intros W h w.
  - unfold config.getEnvInt. split.
    + destruct (env !! "LOGGING_LEVEL") as [value |]; [| intros; lia].
      destruct (config.Atoi value) as [n | e] eqn:Ha; [| intros; lia].
      intros Hn. by exists value, n.
    + intros (value & n & Hv & Hn & Hle). by rewrite Hv, Hn.
  - intros Hv. unfold config.getEnvInt. by rewrite Hv.
Qed.

(** X18. The authentication middleware. Whatever the request, the
    middleware reads the [Authorization] header once and no other header,
    and does not read the body; it passes the request on exactly when the header is
    [Bearer secret-token], without sending anything; for any other value
    (an empty one, another token, the token without [Bearer]) it sends 401
    with [{"error": "Unauthorized"}], stops the chain and never passes the
    request on. It calls no service. *)
Theorem AuthMiddleware_passes_only_the_token :
  always middleware.AuthMiddleware (fun tr _ =>
    exists token : string,
      headers tr = [("Authorization", token)] /\
      service_calls tr = [] /\ body_reads tr = [] /\
      if decide (token = "Bearer secret-token")
      then passed_on tr = true /\ aborted tr = false /\ responses tr = []
      else passed_on tr = false /\ aborted tr = true /\
           responses tr = [(401, Some (H_error "Unauthorized"))]).
Proof.
  apply always_intro. unfold middleware.AuthMiddleware. cbn.
  intros token.
  change ("Bearer " +:+ middleware.StaticToken) with "Bearer secret-token".
  case_bool_decide as Hd; cbn; try intros [] []; exists token;
    destruct (decide (token = "Bearer secret-token")) as [-> | Hne];
    try congruence; cbn; repeat split.
Qed.

(** X19. The routes behind the token. [NewRouter] gives no router exactly
    when [SetTrustedProxies] fails. In the router it gives, the chain of a
    route contains the authentication middleware exactly for [PUT],
    [PATCH] and [DELETE] of [/api/v1/items/:id], where it comes before the
    handler; the routes that create, update, patch and delete an item
    property are registered on the group that has no middleware, the group
    [authorized] of [items_properties.RegisterRoutes] being left without a
    route, and [POST /api/v1/items] is public as well. *)
Theorem routes_behind_the_token (trusted : option error) :
  match router.NewRouter trusted with
  | None => trusted <> None
  | Some e =>
      trusted = None /\
      (forall r : router.route,
         In r (router.routes e) ->
         (In router.AuthMiddleware (router.chain r) <->
          router.path r = "/api/v1/items/:id" /\
          In (router.method r) ["PUT"; "PATCH"; "DELETE"]) /\
         (In router.AuthMiddleware (router.chain r) ->
          exists f : router.HandlerFunc,
            router.chain r
            = [router.GinLogger; router.GinRecovery; router.AuthMiddleware;
               f])) /\
      (forall (m p : string) (f : router.HandlerFunc),
         In (m, p, f)
           [("POST", "/api/v1/items", router.ItemCreate);
            ("POST", "/api/v1/items/:id/item_properties",
             router.PropertyCreate);
            ("PUT", "/api/v1/items/:id/item_properties/:property_id",
             router.PropertyUpdate);
            ("PATCH", "/api/v1/items/:id/item_properties/:property_id",
             router.PropertyPatch);
            ("DELETE", "/api/v1/items/:id/item_properties/:property_id",
             router.PropertyDelete)] ->
         In {| router.method := m; router.path := p;
               router.chain := [router.GinLogger; router.GinRecovery; f] |}
            (router.routes e))
  end.
Proof.
  destruct trusted as [err |]; [done |].
  vm_compute router.NewRouter. cbv beta iota.
  split; [done |]. split.
  - intros r Hin. cbn [In router.routes] in Hin.
    repeat (destruct Hin as [<- | Hin]); try contradiction;
      cbn [router.chain router.path router.method In];
      (split; [split |]);
      try (intros Hc;
           repeat (destruct Hc as [Hc | Hc]; try discriminate Hc);
           contradiction);
      try (intros [Hp _]; discriminate Hp);
      try (intros [_ Hm];
           repeat (destruct Hm as [Hm | Hm]; try discriminate Hm);
           contradiction);
      try (intros _; split; [reflexivity | tauto]);
      try (intros _; tauto);
      try (intros _; eexists; reflexivity).
  - intros m p f Hin. cbn [In] in Hin.
    repeat (destruct Hin as [[= <- <- <-] | Hin]); try contradiction;
      cbn [In router.routes]; tauto.
Qed.

#[local] Arguments items.isValidUUID : simpl never.

Create HintDb gin_ops.
#[export] Hint Unfold ItemHandler.GetAll ItemHandler.GetByID
  ItemHandler.Create ItemHandler.Update ItemHandler.Patch ItemHandler.Delete
  ItemPropertyHandler.GetAll ItemPropertyHandler.GetByID
  ItemPropertyHandler.Create ItemPropertyHandler.Update
  ItemPropertyHandler.Patch ItemPropertyHandler.Delete
  middleware.AuthMiddleware logging.asLogger logging.LogRequest : gin_ops.

(** Case analysis on everything the calls of a handler may return. *)
Ltac gin_paths :=
  repeat first
    [ progress autounfold with gin_ops in *
    | progress cbn in *
    | progress intros
    | match goal with
      | |- context [negb (items.isValidUUID ?up ?x)] =>
          destruct (items.isValidUUID up x) eqn:?
      | |- context [(?a <=? ?b)%Z] => destruct (a <=? b)%Z eqn:?
      | |- context [bool_decide (?a <> ?b)] =>
          destruct (bool_decide (a <> b)) eqn:?
      | |- context [length ?x] => is_var x; destruct x
      | |- context [match ?x with _ => _ end] => is_var x; destruct x
      end ].

Section Handlers.
Variable uuid_Parse : string -> result string.
Variable l : logging.LoggingService.

(** The item handler with the logging service as its logger. *)
Definition itemHandler : ItemHandler.t :=
  ItemHandler.Build (logging.asLogger l).

(** [routed hd]: [hd] is the program of a handler of the routes. *)
Definition routed (hd : handler_func) : Prop :=
  exists f : router.HandlerFunc,
    router.handler_of uuid_Parse itemHandler f = Some hd.

Definition valid (id : string) : Prop :=
  items.isValidUUID uuid_Parse id = true.

(** A request is refused for its path when a path parameter the handler
    read is no UUID. *)
Definition gate {A} (tr : trace gin_resp) (_ : A) : Prop :=
  (exists key id : string, In (key, id) (params tr) /\ ~ valid id) ->
  service_calls tr = [] /\ body_reads tr = [] /\ generated tr = [] /\
  payloads tr = [] /\
  exists msg : string,
    responses tr = [(StatusBadRequest, Some (H_error msg))].

(** X20. Path ids are checked first. For every handler of the routes and
    whatever the request: when a path parameter the handler read is not
    accepted by [isValidUUID], the handler calls no service, reads and
    decodes no body, generates no id, writes no payload, and sends
    exactly one response, 400 with an [error] message. *)
Theorem invalid_path_ids_are_refused (hd : handler_func) :
  routed hd -> always hd gate.
Proof.
  intros [f Hf]. apply always_intro. unfold gate, valid.
  destruct f; simplify_eq/=; gin_paths.
  all: match goal with
       | H : exists _ _, _ /\ _ |- _ => destruct H as (key & id & Hin & Hv)
       end.
  all: first
         [ exfalso;
           repeat (destruct Hin as [[= <- <-] | Hin]); try contradiction;
           congruence
         | repeat split; eexists; reflexivity ].
Qed.

(** Every id a service is handed is a path parameter that passed
    [isValidUUID] or an id that [uuid.New] gave to this request. *)
Definition ids_checked {A} (tr : trace gin_resp) (_ : A) : Prop :=
  forall (c : gin_call) (id : string),
    In c (service_calls tr) -> In id (service_ids c) ->
    (exists key : string, In (key, id) (params tr) /\ valid id) \/
    In id (generated tr).

(** X21. Where the ids come from. For every handler of the routes and
    whatever the request: each id a service is handed (an argument, or the
    [ID] or [ItemID] of the entity) is a path parameter that passed
    [isValidUUID] or an id that [uuid.New] generated during the request;
    the ids of the decoded body are overwritten and never reach a
    service. *)
Theorem service_ids_come_from_the_path (hd : handler_func) :
  routed hd -> always hd ids_checked.
Proof.
  intros [f Hf]. apply always_intro. unfold ids_checked, valid.
  destruct f; simplify_eq/=; gin_paths; split_in; subst; cbn in *; split_in;
    subst; cbn;
    first [ left; eexists; split; [in_list | assumption]
          | right; in_list ].
Qed.

(** Every entity a service is handed is one the validator was called on
    and found no error in. *)
Definition validated {A} (tr : trace gin_resp) (_ : A) : Prop :=
  forall (c : gin_call) (entity : Item.t + ItemProperty.t),
    In c (service_calls tr) -> submitted c = Some entity ->
    In (Some entity) (map accepted tr).

(** X22. Entities are validated as they are sent. For every handler of
    the routes: an entity that is handed to a service for creation or
    update is, ids included, the very entity on which the validator was
    called and returned no error. *)
Theorem services_get_validated_entities (hd : handler_func) :
  routed hd -> always hd validated.
Proof.
  intros [f Hf]. apply always_intro. unfold validated.
  destruct f; simplify_eq/=; gin_paths; split_in; subst; cbn in *;
    simplify_eq; cbn; auto 10.
Qed.

(** A handler calls at most one service method. When the call fails the
    handler writes no payload and sends one error: 500 with the message
    of the service's error or, for the two reads by id, 404 with a fixed
    message. A payload or a bare status is sent only when the service was
    called and did not fail. *)
Definition outcome {A} (tr : trace gin_resp) (_ : A) : Prop :=
  (length (service_calls tr) <= 1)%nat /\
  (forall err : error,
     In err (service_errors tr) ->
     payloads tr = [] /\
     exists (code : Z) (msg : string),
       responses tr = [(code, Some (H_error msg))] /\
       (code = StatusInternalServerError /\ msg = Error err \/
        code = StatusNotFound /\
        (msg = "Item not found" \/ msg = "Item property not found"))) /\
  (payloads tr <> [] \/ (exists code : Z, In (code, None) (responses tr)) ->
   service_calls tr <> [] /\ service_errors tr = []).

(** X23. The outcome of a handler. Every handler of the routes calls at
    most one service method. When that call fails the handler writes no
    payload and sends exactly one response: 500 with the message of the
    error or, for the two reads by id, 404 with a fixed message that hides
    it. A payload or a bare status (201, 204) is sent only after a service
    call that did not fail. *)
Theorem service_failures_become_errors (hd : handler_func) :
  routed hd -> always hd outcome.
Proof.
  intros [f Hf]. apply always_intro. unfold outcome.
  destruct f; simplify_eq/=; gin_paths.
  all: split; [cbn; lia | split].
  all: first
         [ intros err Hin; split_in; subst;
           (split; [reflexivity |];
            do 2 eexists; (split; [reflexivity |]);
            first [ left; split; reflexivity
                  | right; split; [reflexivity |];
                    first [left; reflexivity | right; reflexivity] ])
         | intros [Hp | [code Hin]]; [| split_in; simplify_eq];
           first [ done | by destruct Hp | split; done ] ].
Qed.

(** The body of the request is kept whole: what a handler or the logger
    drains from it is put back as it was read, before the body is
    decoded. *)
(** X24. The body survives logging. For every handler of the routes, with
    the logging service at any level: whenever the body of the request is
    drained (by [LogRequest] at debug level, or by the property handlers
    for their own log line), exactly what was read is put back before
    [jsonapi.UnmarshalPayload] decodes the body, and the body is never
    assigned otherwise. *)
Theorem request_body_is_kept (hd : handler_func) :
  routed hd -> always hd (fun tr _ => body_kept None tr = true).
Proof.
  intros [f Hf]. apply always_intro.
  destruct f; simplify_eq/=; gin_paths; repeat case_bool_decide; done.
Qed.

End Handlers.

Import DemoHTTP.

Lemma routed_Update :
  routed uuid_Parse logger (ItemPropertyHandler.Update uuid_Parse).
Proof. by exists router.PropertyUpdate. Qed.

Lemma routed_ItemUpdate :
  routed uuid_Parse logger
    (ItemHandler.Update uuid_Parse (itemHandler logger)).
Proof. by exists router.ItemUpdate. Qed.

(** A request whose item id is [42]. *)
Definition request_42 : handler gin_resp unit :=
  fun c w =>
    match c return gin_resp c * unit with
    | Param _ => ("42", w)
    | c => idle c w
    end.

Lemma invalid_path_ids_are_refused_witness :
  routed uuid_Parse logger (ItemPropertyHandler.Update uuid_Parse) /\
  let tr :=
    trace_of (run request_42 (ItemPropertyHandler.Update uuid_Parse) tt) in
  service_calls tr = [] /\ body_reads tr = [] /\
  responses tr
  = [(400, Some (H_error "Invalid UUID format for item ID"))].
Proof.
  split; [apply routed_Update |]. cbv zeta.
  destruct (invalid_path_ids_are_refused uuid_Parse logger _ routed_Update
              unit request_42 tt) as (Hs & Hb & _ & _ & _).
  - exists "id", "42". split; [by left | by vm_compute].
  - split; [exact Hs |]. split; [exact Hb |]. reflexivity.
Defined.

Lemma service_ids_come_from_the_path_witness :
  routed uuid_Parse logger (ItemPropertyHandler.Update uuid_Parse) /\
  always (ItemPropertyHandler.Update uuid_Parse) (ids_checked uuid_Parse).
Proof.
  split; [apply routed_Update |].
  apply (service_ids_come_from_the_path uuid_Parse logger), routed_Update.
Defined.

Lemma services_get_validated_entities_witness :
  routed uuid_Parse logger (ItemPropertyHandler.Update uuid_Parse) /\
  always (ItemPropertyHandler.Update uuid_Parse) validated.
Proof.
  split; [apply routed_Update |].
  apply (services_get_validated_entities uuid_Parse logger), routed_Update.
Defined.

Lemma service_failures_become_errors_witness :
  routed uuid_Parse logger (ItemPropertyHandler.Update uuid_Parse) /\
  always (ItemPropertyHandler.Update uuid_Parse) outcome.
Proof.
  split; [apply routed_Update |].
  apply (service_failures_become_errors uuid_Parse logger), routed_Update.
Defined.

Lemma request_body_is_kept_witness :
  routed uuid_Parse logger
    (ItemHandler.Update uuid_Parse (itemHandler logger)) /\
  always (ItemHandler.Update uuid_Parse (itemHandler logger))
    (fun tr _ => body_kept None tr = true).
Proof.
  split; [apply routed_ItemUpdate |].
  apply (request_body_is_kept uuid_Parse logger), routed_ItemUpdate.
Defined.

End httpMore.

(** ** Properties of the handlers on their services *)

Module appMore.
Import Service ServiceTheory app httpMore.

(** Case analysis on everything the calls of a handler and of the service
    behind it may return. *)
Ltac app_paths :=
  repeat first
    [ progress autounfold with gin_ops svc_ops in *
    | progress cbn in *
    | progress intros
    | match goal with
      | |- context [negb (items.isValidUUID ?up ?x)] =>
          destruct (items.isValidUUID up x) eqn:?
      | |- context [(?a <=? ?b)%Z] => destruct (a <=? b)%Z eqn:?
      | |- context [bool_decide (?a <> ?b)] =>
          destruct (bool_decide (a <> b)) eqn:?
      | |- context [cacheHit ?r] => destruct (cacheHit r) eqn:?
      | |- context [Marshal ?v] => destruct (Marshal v) eqn:?
      | |- context [length ?x] => is_var x; destruct x
      | |- context [match ?x with _ => _ end] => is_var x; destruct x
      end ].

Section Application.
Context `{JSON Item.t, JSON (list Item.t)}.
Context `{JSON ItemProperty.t, JSON (list ItemProperty.t)}.
Variable uuid_Parse : string -> result string.
Variable l : logging.LoggingService.


(** X26. What reaches the client. Whatever the request, the store and
    the cache answer: when the store fails, the handler sends one error
    and nothing else, 500 with the message of the store's error or, for
    the two reads by id, 404 with a fixed message, and the cache is not
    written; and a 500 or a 404 is sent only when the store failed or the
    payload could not be written, so a failure of the cache alone never
    reaches the client. *)
Theorem only_store_failures_reach_the_client (hd : gin.handler_func) :
  routed uuid_Parse l hd ->
  always (link hd) (fun tr _ =>
    let sent := ginTrace.responses (handler_trace tr) in
    let store_failed := store_errors (service_trace tr) in
    (forall err : error,
       In err store_failed ->
       cache_writes (service_trace tr) = [] /\
       ginTrace.payloads (handler_trace tr) = [] /\
       exists (code : Z) (msg : string),
         sent = [(code, Some (gin.H_error msg))] /\
         (code = gin.StatusInternalServerError /\ msg = Error err \/
          code = gin.StatusNotFound /\
          (msg = "Item not found" \/ msg = "Item property not found"))) /\
    (forall (code : Z) (body : option gin.H),
       In (code, body) sent ->
       code = gin.StatusInternalServerError \/ code = gin.StatusNotFound ->
       store_failed <> [] \/ marshal_errors (handler_trace tr) <> [])).
Proof.
  intros [f Hf]. apply always_intro. cbv zeta.
  destruct f; simplify_eq/=; app_paths.
  all: split.
  all: first
         [ intros err Hin; split_in; subst;
           (split; [reflexivity |]; split; [reflexivity |];
            do 2 eexists; (split; [reflexivity |]);
            first [ left; split; reflexivity
                  | right; split; [reflexivity |];
                    first [left; reflexivity | right; reflexivity] ])
         | intros code body Hin [-> | ->]; split_in; simplify_eq;
           first [ by left | by right ] ].
Qed.

End Application.
Import DemoHTTP Demo.

Lemma uuid_Parse_plain (id : string) :
  valid uuid_Parse id -> fileTheory.slash_free id.
Proof.
  unfold valid, items.isValidUUID, uuid_Parse, fileTheory.slash_free.
  destruct (String.length id =? 36)%nat; [| discriminate].
  by destruct (filepath.hasSeparator id).
Qed.

Lemma routed_Delete :
  routed uuid_Parse logger (ItemPropertyHandler.Delete uuid_Parse).
Proof. by exists router.PropertyDelete. Qed.


Lemma only_store_failures_reach_the_client_witness :
  routed uuid_Parse logger (ItemPropertyHandler.Delete uuid_Parse) /\
  always (link (ItemPropertyHandler.Delete uuid_Parse)) (fun tr _ =>
    forall (code : Z) (body : option gin.H),
      In (code, body) (ginTrace.responses (handler_trace tr)) ->
      code = gin.StatusInternalServerError \/ code = gin.StatusNotFound ->
      Service.store_errors (service_trace tr) <> [] \/
      marshal_errors (handler_trace tr) <> []).
Proof.
  split; [apply routed_Delete |].
  intros W h w.
  apply (only_store_failures_reach_the_client uuid_Parse logger _
           routed_Delete W h w).
Defined.

End appMore.

(** ** Properties of the migrations *)

Module databaseMore.
Import database.

Create HintDb db_ops.
#[export] Hint Unfold NewGormDB Up Down Status NewMigrator : db_ops.

Ltac db_paths :=
  repeat first
    [ progress autounfold with db_ops in *
    | progress cbn in *
    | progress intros
    | match goal with
      | |- context [if ?f ?e then _ else _] => destruct (f e) eqn:?
      | |- context [match ?x with _ => _ end] => is_var x; destruct x
      end ].

Section Database.
Variable isErrNoNextVersion : error -> bool.

(** The run migrated the connection [db] under [dialect] and nothing
    else; it returns [db] exactly when the migrations ran to their end,
    and then says so. *)
Definition migrates (dialect : string) (db : gormDB)
    (tr : trace db_resp) (r : result gormDB) : Prop :=
  asked tr = [db] /\
  (forall d : string, In d (dialects tr) -> d = dialect) /\
  let done := "Database migrations completed successfully (dialect: "
              +:+ dialect +:+ ")" in
  match r with
  | Ok db' =>
      db' = db /\ dialects tr = [dialect] /\ In done (messages tr) /\
      existsb (migrated isErrNoNextVersion) tr = true
  | Err _ =>
      ~ In done (messages tr) /\
      existsb (migrated isErrNoNextVersion) tr = false
  end.

(** X27. The database connection. Whatever the databases answer,
    [NewGormDB] opens MySQL first, on the DSN of the configuration, and
    SQLite, on [gorm.db], exactly when MySQL could not be opened; when
    neither opens it returns the error of SQLite and touches nothing. The
    connection it migrates is the one that opened, under the dialect of
    that connection ([mysql] or [sqlite3]); it returns that connection
    exactly when the migrations ran to their end (a database that is
    already up to date counts), and only then prints that they
    completed. *)
Theorem NewGormDB_falls_back_to_SQLite (cfg : di.Config) :
  always (NewGormDB isErrNoNextVersion cfg) (fun tr r =>
    let mysql := GormOpenMySQL (config.GetMySQLDSN cfg) in
    let sqlite := GormOpenSQLite "gorm.db" in
    (exists db : gormDB,
       attempts tr = [(mysql, Ok db)] /\ migrates "mysql" db tr r) \/
    (exists (e : error) (db : gormDB),
       attempts tr = [(mysql, Err e); (sqlite, Ok db)] /\
       migrates "sqlite3" db tr r) \/
    (exists e e' : error,
       attempts tr = [(mysql, Err e); (sqlite, Err e')] /\
       r = Err e' /\ asked tr = [] /\ dialects tr = [] /\
       List.filter on_database (db_calls tr) = [])).
Proof.
  apply always_intro. cbv zeta. unfold migrates. db_paths.
  all: first
         [ left; eexists; split; [reflexivity |]
         | right; left; do 2 eexists; split; [reflexivity |]
         | right; right; do 2 eexists; by repeat split ].
  all: cbn; rewrite ?Heqb; cbn;
    repeat match goal with |- _ /\ _ => split end;
    try reflexivity; try tauto;
    try (intros d Hd; split_in; by subst);
    try (intros Hd; split_in; discriminate).
Qed.

(** What a method of the migrator does around its operation [op]: it
    sets the dialect of the migrator and no other; it runs nothing on the
    database when [goose] refuses the dialect, and [op] on the database
    and the [migrations] directory of the migrator, once, when it accepts
    it; an error it returns carries the message of the error of [goose]
    behind a prefix; and it returns nil exactly when every error of
    [goose] is one that [forgiven] holds of. *)
Definition around (m : Migrator) (op : sqlDB -> string -> db_call)
    (forgiven : db_call -> error -> bool)
    (tr : trace db_resp) (err : option error) : Prop :=
  dialects tr = [dialect m] /\
  (List.filter on_database (db_calls tr) = [] \/
   List.filter on_database (db_calls tr) = [op (db m) "migrations"]) /\
  (forall (d : string) (e : error),
     In (GooseSetDialect d, e) (failures tr) ->
     List.filter on_database (db_calls tr) = []) /\
  (forall e' : error,
     err = Some e' ->
     exists (c : db_call) (e : error) (prefix : string),
       In (c, e) (failures tr) /\ Error e' = prefix +:+ Error e) /\
  (err = None <->
   forall (c : db_call) (e : error),
     In (c, e) (failures tr) -> forgiven c e = true).

(** X28. The migrator. [Up], [Down] and [Status] set the dialect of the
    migrator and no other, run their operation on its database at most
    once, and leave the database alone when the dialect is refused; each
    reports the error of [goose] behind its own prefix.
    [Up] alone forgives one error: when [goose.Up] finds no next version
    the database is up to date and [Up] returns nil, while [Down] and
    [Status] return every error of their operation. *)
Theorem migrator_sets_the_dialect_first (m : Migrator) :
  let up_to_date (c : db_call) (e : error) :=
    if c is GooseUp _ _ then isErrNoNextVersion e else false in
  always (Up isErrNoNextVersion m) (around m GooseUp up_to_date) /\
  always (Down m) (around m GooseDown (fun _ _ => false)) /\
  always (Status m) (around m GooseStatus (fun _ _ => false)).
Proof.
  cbv zeta. unfold around.
  repeat match goal with |- _ /\ _ => split end;
    apply always_intro; db_paths.
  all: repeat match goal with |- _ /\ _ => split end;
    try reflexivity; try (by left); try (by right); try done.
  all: try (intros d e' Hin; split_in; by simplify_eq).
  all: try (intros e' [= <-]; do 3 eexists; split;
            [by left | cbn; by rewrite <- ?filepathTheory.append_assoc]).
  all: split;
    [ intros Heq c e' Hin; split_in; by simplify_eq
    | intros Hall; try reflexivity; exfalso;
      specialize (Hall _ _ (or_introl eq_refl)); cbn in Hall; congruence ].
Qed.

End Database.
End databaseMore.
